(** * Verification of the embedding batch-refresh worker (src/main.py)

    The development embeds the three functions of [main.py] that carry
    behaviour: [call_vector_service] (the embedding client),
    [batch_refresh_embeddings] (table resolution and the refresh engine) and
    [health_check].

    The program talks to two external collaborators, the PostgreSQL driver
    (psycopg2) and the HTTP client (requests).  They are an interface here
    (class [Driver]): every call may return a value or raise a Python
    exception, and may change the state of the outside world.  The functions
    of [main.py] are written in a small monad that threads the world and the
    one local variable that the handlers of the job read ([conn]), collects
    the observable events in the order they happen (calls into the driver
    and calls of the logger) and propagates exceptions.

    Only exceptions derived from Python's [Exception] are modelled; these are
    the ones [except Exception] catches. *)

From Stdlib Require Import ZArith Ascii Floats.SpecFloat.
From stdpp Require Import base strings list gmap sorting.

Set Warnings "-register-all".

(** ** Python values *)

(** The values that come out of [response.json()] and out of database
    columns.  A JSON object is a [dict] keyed by strings. *)
Inductive pyval : Type :=
  | PNone
  | PBool (b : bool)
  | PInt (n : Z)
  | PFloat (f : spec_float)
  | PStr (s : string)
  | PList (l : list pyval)
  | PDict (d : gmap string pyval).

(** Python truth value, as used by [not x], [if x] and [all]. *)
Definition truthy (v : pyval) : bool :=
  match v with
  | PNone => false
  | PBool b => b
  | PInt n => negb (n =? 0)%Z
  | PFloat (S754_zero _) => false
  | PFloat _ => true
  | PStr s => negb (String.eqb s EmptyString)
  | PList l => negb (Nat.eqb (length l) 0)
  | PDict d => negb (Nat.eqb (size d) 0)
  end.

(** [len(v) == 0], for the values that have a length. *)
Definition len_is_zero (v : pyval) : bool :=
  match v with
  | PStr s => Nat.eqb (String.length s) 0
  | PList l => Nat.eqb (length l) 0
  | PDict d => Nat.eqb (size d) 0
  | _ => false
  end.

(** ** Python strings

    A Python [str] is a sequence of characters (code points).  A string is
    held here as the bytes of its UTF-8 encoding, so that the literals of
    [main.py] read as they are written; a character is one byte that is not
    a continuation byte, followed by its continuation bytes. *)

(** The bytes [10xxxxxx], which continue a character. *)
Definition is_continuation (c : ascii) : bool :=
  (128 <=? nat_of_ascii c) && (nat_of_ascii c <=? 191).

(** [len(s)], the number of characters. *)
Fixpoint char_length (s : string) : nat :=
  match s with
  | EmptyString => 0
  | String c rest =>
      if is_continuation c then char_length rest else S (char_length rest)
  end.

(** [s[:n]], the first [n] characters of [s], or all of [s] when it has
    fewer. *)
Fixpoint slice_to (n : nat) (s : string) : string :=
  match s with
  | EmptyString => EmptyString
  | String c rest =>
      if is_continuation c then String c (slice_to n rest)
      else match n with
           | 0 => EmptyString
           | S n' => String c (slice_to n' rest)
           end
  end.

(** [isinstance(v, list)] *)
Definition isinstance_list (v : pyval) : bool :=
  match v with PList _ => true | _ => false end.

(** [type(v).__name__], which Python prints in attribute errors. *)
Definition type_name (v : pyval) : string :=
  match v with
  | PNone => "NoneType"
  | PBool _ => "bool"
  | PInt _ => "int"
  | PFloat _ => "float"
  | PStr _ => "str"
  | PList _ => "list"
  | PDict _ => "dict"
  end.

(** [os.getenv] returns [None] or a string. *)
Definition of_env (o : option string) : pyval :=
  match o with None => PNone | Some s => PStr s end.

(** ** Exceptions *)

(** The classes the program distinguishes.  [RequestException] stands for
    [requests.exceptions.RequestException] and its subclasses,
    [Psycopg2Error] for [psycopg2.Error] and its subclasses;
    [ConnectionError] is the builtin class raised at line 86. *)
Inductive exc_class : Type :=
  | ValueError
  | AttributeError
  | ConnectionError
  | RuntimeError
  | RequestException
  | Psycopg2Error
  | OtherException.

(** An exception: its class, [str(e)], and for a request exception the
    text of [e.response] when there is one. *)
Record exc : Type := Exc {
  exc_cls : exc_class;
  exc_str : string;
  exc_response : option string
}.

Definition is_RequestException (e : exc) : bool :=
  match exc_cls e with RequestException => true | _ => false end.

Definition is_psycopg2_Error (e : exc) : bool :=
  match exc_cls e with Psycopg2Error => true | _ => false end.

(** What [v.attr] raises when [v] has no such attribute. *)
Definition no_attribute (v : pyval) (attr : string) : exc :=
  Exc AttributeError
      ("'" +:+ type_name v +:+ "' object has no attribute '" +:+ attr +:+ "'") None.

Inductive outcome (A : Type) : Type :=
  | Ok (a : A)
  | Raise (e : exc).
Arguments Ok {A} a.
Arguments Raise {A} e.

(** ** Configuration (lines 13-22) and request parameters (lines 33-44) *)

Record config : Type := Config {
  VECTOR_SERVICE_URL : option string;
  VECTOR_MODEL : option string;
  VECTOR_USER : option string;
  VECTOR_HEADER_ACCEPT : option string;
  VECTOR_HEADER_ACCEPT_ENCODING : option string;
  VECTOR_HEADER_CONNECTION : option string;
  VECTOR_HEADER_CONTENT_TYPE : option string;
  VECTOR_HEADER_USER_AGENT : option string
}.

Definition VECTOR_HEADERS (cfg : config) : gmap string pyval :=
  <["Accept" := of_env (VECTOR_HEADER_ACCEPT cfg)]>
  (<["Accept-Encoding" := of_env (VECTOR_HEADER_ACCEPT_ENCODING cfg)]>
  (<["Connection" := of_env (VECTOR_HEADER_CONNECTION cfg)]>
  (<["Content-Type" := of_env (VECTOR_HEADER_CONTENT_TYPE cfg)]>
  (<["User-Agent" := of_env (VECTOR_HEADER_USER_AGENT cfg)]> ∅)))).

Record RefreshEmbeddingParams : Type := Params {
  db_ip : string;
  db_port : Z;
  db_username : string;
  db_password : string;
  db_name : string;
  table_name : string;
  text_field_name : string;
  vector_field_name : string
}.

(** ** The database and HTTP interface *)

(** The four SQL statements the job sends, with the values interpolated
    into the text or bound as parameters. *)
Inductive statement : Type :=
  | SelectMatchingTable (requested : string)
      (* lines 109-115: SELECT table_name FROM information_schema.tables
         WHERE table_schema = 'public' AND table_type = 'BASE TABLE'
           AND lower(table_name) = lower(%s) *)
  | SelectAllTables
      (* lines 122-128: the same SELECT without the name condition,
         ORDER BY table_name *)
  | SelectRows (full_table_name text_field : string)
      (* lines 143-146: SELECT id, "<text_field>" AS text
         FROM <full_table_name> *)
  | UpdateVector (full_table_name vector_field : string)
                 (embedding record_id : pyval).
      (* lines 165-169: UPDATE <full_table_name>
         SET "<vector_field>" = %s WHERE id = %s *)

(** A [RealDictRow] of a catalogue query has the one key [table_name]. *)
Record catalog_row : Type := CatalogRow { row_table_name : string }.

(** A [RealDictRow] of the row query has exactly the keys [id] and [text]. *)
Record table_row : Type := TableRow { row_id : pyval; row_text : pyval }.

(** The [requests.Response] object, as far as the program uses it: what
    [raise_for_status()] does and what [json()] does. *)
Record response : Type := Response {
  raise_for_status : outcome unit;
  json : outcome pyval
}.

(** Connections and cursors are objects of the driver; the program holds
    references to them. *)
Definition handle : Type := nat.

(** The calls the program makes into psycopg2, pgvector and requests, over
    a state [W] of the world outside.  [cur.fetchall()] is called once after
    the listing query (line 129) and once after the row query (line 148);
    the two calls have different row shapes and are two operations here. *)
Class Driver (W : Type) : Type := {
  (* psycopg2.connect(host=..., port=..., dbname=..., user=..., password=...) *)
  psycopg2_connect : RefreshEmbeddingParams -> W -> outcome handle * W;
  (* register_vector(conn) *)
  register_vector : handle -> W -> outcome unit * W;
  (* conn.cursor(cursor_factory=RealDictCursor) *)
  conn_cursor : handle -> W -> outcome handle * W;
  (* cur.execute(query, args) *)
  cur_execute : handle -> statement -> W -> outcome unit * W;
  (* cur.fetchone(), line 116 *)
  cur_fetchone : handle -> W -> outcome (option catalog_row) * W;
  (* cur.fetchall(), line 129 *)
  cur_fetchall_tables : handle -> W -> outcome (list catalog_row) * W;
  (* cur.fetchall(), line 148 *)
  cur_fetchall : handle -> W -> outcome (list table_row) * W;
  (* conn.commit(), conn.rollback(), conn.close() *)
  conn_commit : handle -> W -> outcome unit * W;
  conn_rollback : handle -> W -> outcome unit * W;
  conn_close : handle -> W -> outcome unit * W;
  (* requests.post(url=..., headers=..., json=..., timeout=...) *)
  requests_post :
    pyval -> gmap string pyval -> pyval -> Z -> W -> outcome response * W;
  (* str.strip() *)
  str_strip : string -> string
}.

(** ** Observable events *)

Inductive level : Type := DEBUG | INFO | ERROR.

(** One constructor per logger call of [main.py], carrying the values its
    f-string interpolates. *)
Inductive log_record : Type :=
  | LogConfigIncomplete                         (* line 50 *)
  | LogCallingService (text50 : string)         (* line 60 *)
  | LogBadResponse (result : pyval)             (* line 71 *)
  | LogMissingEmbedding (result : pyval)        (* line 76 *)
  | LogCallFailed (error_msg : string)          (* line 85 *)
  | LogGenerationError (str_e : string)         (* line 88 *)
  | LogConnecting (ip : string) (port : Z) (name : string)   (* line 97 *)
  | LogNoMatchingTable (requested : string)     (* line 119 *)
  | LogAllTables (name : string) (joined : string)           (* line 133 *)
  | LogNoTables (name : string)                 (* line 135 *)
  | LogMatchedTable (full_table_name : string)  (* line 140 *)
  | LogRowsFound (total : nat)                  (* line 150 *)
  | LogNothingToUpdate                          (* line 153 *)
  | LogProgress (idx total : nat)               (* line 173 *)
  | LogRowFailed (idx : nat) (record_id : pyval) (str_e : string)  (* line 176 *)
  | LogDone (success_count fail_count : nat)    (* line 180 *)
  | LogDatabaseFailed (str_e : string)          (* line 185 *)
  | LogJobException (str_e : string)            (* line 187 *)
  | LogConnectionClosed.                        (* line 191 *)

Inductive event : Type :=
  | EvConnect (params : RefreshEmbeddingParams)
  | EvRegisterVector (conn : handle)
  | EvCursor (conn : handle)
  | EvExecute (cur : handle) (s : statement)
  | EvFetchone (cur : handle)
  | EvFetchall (cur : handle)
  | EvCommit (conn : handle)
  | EvRollback (conn : handle)
  | EvClose (conn : handle)
  | EvPost (url : pyval) (headers : gmap string pyval) (payload : pyval)
           (timeout : Z)
  | EvLog (lvl : level) (r : log_record).

(** The path a job resolved: that of its first "matched" log line
    (line 140). *)
Definition resolved_path (tr : list event) : option string :=
  head (omap (fun ev => match ev with
                        | EvLog _ (LogMatchedTable full) => Some full
                        | _ => None
                        end) tr).


Definition is_close (ev : event) : bool :=
  match ev with EvClose _ => true | _ => false end.
Definition is_commit (ev : event) : bool :=
  match ev with EvCommit _ => true | _ => false end.
Definition is_update (ev : event) : bool :=
  match ev with EvExecute _ (UpdateVector _ _ _ _) => true | _ => false end.
Definition is_tally (ev : event) : bool :=
  match ev with EvLog _ (LogDone _ _) => true | _ => false end.

(** ** An in-memory database and embedding service

    A [Driver] against which the job can be run on concrete inputs.  The two
    catalogue queries are interpreted as their SQL text says, over the rows
    of [information_schema.tables].  What [lower] does is the server's
    business: it folds by the collation of its argument, which for the
    column [table_name] need not be the one of the bound parameter.  The
    two foldings are therefore part of the server, and nothing is assumed
    about them.  Connections, commits and closes always succeed here; the
    failures of the real driver are covered by the statements that hold for
    every [Driver]. *)

Module Sim.

(** A row of [information_schema.tables], with the content of the table as
    the row query returns it (its [id] column and its text column). *)
Record table_info : Type := TableInfo {
  ti_schema : string;
  ti_name : string;
  ti_type : string;
  ti_rows : list table_row
}.

Record world : Type := World {
  catalog : list table_info;
  (* what the embedding service answers to a request body *)
  service : pyval -> outcome response;
  (* [lower(table_name)] and [lower(%s)] of lines 109-115 *)
  lower_column : string -> string;
  lower_param : string -> string;
  (* the pending result set of the cursor *)
  result_tables : list catalog_row;
  result_rows : list table_row
}.

Definition is_upper (c : ascii) : bool :=
  (65 <=? nat_of_ascii c) && (nat_of_ascii c <=? 90).

Definition lower_ascii (c : ascii) : ascii :=
  if is_upper c then ascii_of_nat (nat_of_ascii c + 32) else c.

(** The folding of the letters A-Z alone: what [lower] does under the
    collation C, and what the server does to an unquoted identifier. *)
Fixpoint ascii_lower (s : string) : string :=
  match s with
  | EmptyString => EmptyString
  | String c rest => String (lower_ascii c) (ascii_lower rest)
  end.

(** The capital letters of Latin-1 (U+00C0 to U+00DE, without the
    multiplication sign), in UTF-8. *)
Definition is_latin_capital (c1 c2 : ascii) : bool :=
  (nat_of_ascii c1 =? 195) && (128 <=? nat_of_ascii c2)
  && (nat_of_ascii c2 <=? 158) && negb (nat_of_ascii c2 =? 151).

(** A folding that knows the letters of ASCII and of Latin-1, as [lower]
    does for them under a UTF-8 locale such as en_US. *)
Fixpoint latin_lower (s : string) : string :=
  match s with
  | EmptyString => EmptyString
  | String c1 tail =>
      match tail with
      | String c2 rest =>
          if is_latin_capital c1 c2
          then String c1 (String (ascii_of_nat (nat_of_ascii c2 + 32))
                                 (latin_lower rest))
          else String (lower_ascii c1) (latin_lower tail)
      | EmptyString => String (lower_ascii c1) EmptyString
      end
  end.

(** Two names that are equal up to the case of their ASCII letters,
    letter by letter. *)
Definition same_letter (a b : ascii) : bool :=
  Ascii.eqb a b
  || (is_upper a && Ascii.eqb (lower_ascii a) b)
  || (is_upper b && Ascii.eqb a (lower_ascii b)).

Fixpoint eq_ignore_case (s1 s2 : string) : bool :=
  match s1, s2 with
  | EmptyString, EmptyString => true
  | String a r1, String b r2 => same_letter a b && eq_ignore_case r1 r2
  | _, _ => false
  end.

Definition all_ascii : list ascii := ascii_of_nat <$> seq 0 256.

(** [table_schema = 'public' AND table_type = 'BASE TABLE'] *)
Definition is_public_base_table (t : table_info) : bool :=
  String.eqb (ti_schema t) "public" && String.eqb (ti_type t) "BASE TABLE".

Definition base_tables (cat : list table_info) : list table_info :=
  List.filter is_public_base_table cat.

(** The result of the query of lines 109-115, on a server that folds the
    column with [fold_column] and the parameter with [fold_param]. *)
Definition matching_tables (fold_column fold_param : string -> string)
    (requested : string) (cat : list table_info) : list catalog_row :=
  (fun t => CatalogRow (ti_name t)) <$>
  List.filter (fun t => String.eqb (fold_column (ti_name t))
                                   (fold_param requested))
              (base_tables cat).

(** The result of the query of lines 122-128; [table_name] is compared
    byte-wise, as the catalogue's identifier type is. *)
Definition all_tables (cat : list table_info) : list catalog_row :=
  CatalogRow <$> merge_sort String.le (ti_name <$> base_tables cat).

(** The characters of an unquoted identifier: a letter, an underscore or
    a byte of a character outside ASCII, and after the first one also a
    digit or a dollar sign. *)
Definition is_ident_start (c : ascii) : bool :=
  is_upper c
  || ((97 <=? nat_of_ascii c) && (nat_of_ascii c <=? 122))
  || (nat_of_ascii c =? 95) || (128 <=? nat_of_ascii c).

Definition is_ident_cont (c : ascii) : bool :=
  is_ident_start c
  || ((48 <=? nat_of_ascii c) && (nat_of_ascii c <=? 57))
  || (nat_of_ascii c =? 36).

Fixpoint all_chars (p : ascii -> bool) (s : string) : bool :=
  match s with
  | EmptyString => true
  | String c rest => p c && all_chars p rest
  end.

Definition is_identifier (s : string) : bool :=
  match s with
  | EmptyString => false
  | String c rest => is_ident_start c && all_chars is_ident_cont rest
  end.

(** The table name the text [public.<name>] denotes when it is written
    into a statement without quotes (lines 145 and 166): [<name>] has to
    read as one identifier, which the server folds to lower case. *)
Definition unquoted_table (full_table_name : string) : option string :=
  let name := String.substring 7 (String.length full_table_name - 7)
                               full_table_name in
  if String.prefix "public." full_table_name && is_identifier name
  then Some (ascii_lower name) else None.

Definition undefined_table (full_table_name : string) : exc :=
  Exc Psycopg2Error
      ("relation '" +:+ ascii_lower full_table_name +:+ "' does not exist")
      None.

Definition syntax_error (full_table_name : string) : exc :=
  Exc Psycopg2Error
      ("syntax error in the name '" +:+ full_table_name +:+ "'") None.

(** The relation a statement on the unquoted [public.<name>] reaches.  A
    name that does not read as one identifier (such as my-docs) is a
    syntax error here. *)
Definition relation (full_table_name : string) (cat : list table_info)
    : outcome table_info :=
  match unquoted_table full_table_name with
  | Some name =>
      match List.find (fun t => String.eqb (ti_schema t) "public" &&
                                String.eqb (ti_name t) name) cat with
      | Some t => Ok t
      | None => Raise (undefined_table full_table_name)
      end
  | None => Raise (syntax_error full_table_name)
  end.

(** The server with a new pending result set. *)
Definition with_results (w : world) (tables : list catalog_row)
    (rows : list table_row) : world :=
  World (catalog w) (service w) (lower_column w) (lower_param w) tables rows.

Definition execute (s : statement) (w : world) : outcome unit * world :=
  match s with
  | SelectMatchingTable requested =>
      (Ok tt,
       with_results w
         (matching_tables (lower_column w) (lower_param w) requested
                          (catalog w)) [])
  | SelectAllTables => (Ok tt, with_results w (all_tables (catalog w)) [])
  | SelectRows full _ =>
      match relation full (catalog w) with
      | Ok t => (Ok tt, with_results w [] (ti_rows t))
      | Raise e => (Raise e, w)
      end
  | UpdateVector full _ _ _ =>
      match relation full (catalog w) with
      | Ok t => (Ok tt, with_results w [] [])
      | Raise e => (Raise e, w)
      end
  end.

Definition fetchone (w : world) : outcome (option catalog_row) * world :=
  (Ok (head (result_tables w)),
   with_results w (tail (result_tables w)) (result_rows w)).

Definition fetchall_tables (w : world) : outcome (list catalog_row) * world :=
  (Ok (result_tables w), with_results w [] (result_rows w)).

Definition fetchall (w : world) : outcome (list table_row) * world :=
  (Ok (result_rows w), with_results w (result_tables w) []).

(** The white space [str.strip] removes, among the ASCII characters. *)
Definition is_space (c : ascii) : bool :=
  let n := nat_of_ascii c in
  ((9 <=? n) && (n <=? 13)) || ((28 <=? n) && (n <=? 32)).

Fixpoint lstrip (s : string) : string :=
  match s with
  | String c rest => if is_space c then lstrip rest else s
  | EmptyString => EmptyString
  end.

Definition strip (s : string) : string :=
  String.rev (lstrip (String.rev (lstrip s))).

#[global] Instance driver : Driver world := {|
  psycopg2_connect _ w := (Ok 1, w);
  register_vector _ w := (Ok tt, w);
  conn_cursor _ w := (Ok 2, w);
  cur_execute _ s w := execute s w;
  cur_fetchone _ w := fetchone w;
  cur_fetchall_tables _ w := fetchall_tables w;
  cur_fetchall _ w := fetchall w;
  conn_commit _ w := (Ok tt, w);
  conn_rollback _ w := (Ok tt, w);
  conn_close _ w := (Ok tt, w);
  requests_post _ _ payload _ w := (service w payload, w);
  str_strip := strip
|}.

(** The events of a job up to the answer of the first catalogue query. *)
Definition resolving (params : RefreshEmbeddingParams) : list event :=
  [EvLog INFO (LogConnecting (db_ip params) (db_port params) (db_name params));
   EvConnect params; EvRegisterVector 1; EvCursor 1;
   EvExecute 2 (SelectMatchingTable (table_name params)); EvFetchone 2].

(** *** Sample inputs *)

(** A server of version 12 or later with a UTF-8 locale: the column
    [table_name] has the collation C, the bound parameter the collation
    of the database. *)
Definition server (cat : list table_info)
    (svc : pyval -> outcome response) : world :=
  World cat svc ascii_lower latin_lower [] [].

Definition table (name : string) (rows : list table_row) : table_info :=
  TableInfo "public" name "BASE TABLE" rows.

Definition vector3 : pyval :=
  PList [PFloat (S754_finite false 1 (-1));
         PFloat (S754_finite false 1 (-2));
         PFloat (S754_finite false 1 (-3))].

Definition answer (body : pyval) : outcome response :=
  Ok (Response (Ok tt) (Ok body)).

(** A service that answers a 3-element vector for a non-empty text and
    HTTP 400 for an empty one. *)
Definition service3 (payload : pyval) : outcome response :=
  match payload with
  | PDict d =>
      match d !! "input" with
      | Some (PList [PStr EmptyString]) =>
          Ok (Response
                (Raise (Exc RequestException "400 Client Error" (Some "{}")))
                (Ok (PDict ∅)))
      | _ => answer (PDict {[ "data" :=
                       PList [PDict {[ "embedding" := vector3 ]}] ]})
      end
  | _ => answer PNone
  end.

Definition docs_rows : list table_row :=
  [TableRow (PInt 1) (PStr "hello");
   TableRow (PInt 2) (PStr EmptyString);
   TableRow (PInt 3) (PStr "world")].

Definition docs_world : world :=
  server [table "docs" docs_rows; table "users" []] service3.

(** A schema with a table spelled in mixed case and a view. *)
Definition mixed_world : world :=
  server [TableInfo "public" "report" "VIEW" [];
          table "Users" [];
          TableInfo "audit" "users" "BASE TABLE" []] service3.

(** A service that answers every request with HTTP 200 and the JSON
    [body]. *)
Definition answering (body : pyval) : world :=
  server [] (fun _ => answer body).

Definition full_config : config :=
  Config (Some "http://embedding.local/v1") (Some "bge-m3") (Some "svc")
         (Some "*/*") None (Some "keep-alive") (Some "application/json") None.

(** Only the service URL is set. *)
Definition url_only_config : config :=
  Config (Some "http://embedding.local/v1") None None None None None None None.

Definition no_config : config :=
  Config None None None None None None None None.

(** A body of the shape the client expects. *)
Definition usable_body : pyval :=
  PDict {[ "data" := PList [PDict {[ "embedding" := vector3 ]}] ]}.

Definition job (table : string) : RefreshEmbeddingParams :=
  Params "127.0.0.1" 5432 "root" "secret" "nlp_service" table "body" "vec".

(** A service every request to which raises [e] in the client library. *)
Definition failing (e : exc) : world :=
  server [] (fun _ => Raise e).

(** A schema with a table whose name does not read as an identifier. *)
Definition hyphen_world : world :=
  server [table "my-docs" [TableRow (PInt 1) (PStr "hello")]] service3.

(** A schema with a table whose name has a letter outside ASCII. *)
Definition ecole_world : world :=
  server [table "école" [TableRow (PInt 1) (PStr "bonjour")]] service3.

End Sim.

(** ** A database server that refuses every connection *)

Module Unreachable.

Definition refused : exc :=
  Exc Psycopg2Error "could not connect to server: Connection refused" None.

Definition no_route : exc :=
  Exc RequestException "Max retries exceeded" None.

Definition driver : Driver unit := {|
  psycopg2_connect _ w := (Raise refused, w);
  register_vector _ w := (Ok tt, w);
  conn_cursor _ w := (Ok 2, w);
  cur_execute _ _ w := (Ok tt, w);
  cur_fetchone _ w := (Ok None, w);
  cur_fetchall_tables _ w := (Ok [], w);
  cur_fetchall _ w := (Ok [], w);
  conn_commit _ w := (Ok tt, w);
  conn_rollback _ w := (Ok tt, w);
  conn_close _ w := (Ok tt, w);
  requests_post _ _ _ _ w := (Raise no_route, w);
  str_strip := Sim.strip
|}.

End Unreachable.

(** ** The monad of the program *)

Section Program.
Context {W : Type} `{!Driver W}.
Variable cfg : config.

(** The world outside and the local variable [conn] of the job, which its
    [except] and [finally] clauses read. *)
Record state : Type := State { st_world : W; st_conn : option handle }.

(** A computation returns or raises, leaves a state and emits events. *)
Definition M (A : Type) : Type := state -> outcome A * state * list event.

#[global] Instance M_ret : MRet M := fun A a st => (Ok a, st, []).

#[global] Instance M_bind : MBind M := fun A B k m st =>
  match m st with
  | (Ok a, st1, t1) =>
      match k a st1 with (r, st2, t2) => (r, st2, t1 ++ t2) end
  | (Raise e, st1, t1) => (Raise e, st1, t1)
  end.

Definition raise {A} (e : exc) : M A := fun st => (Raise e, st, []).

Definition logger (lvl : level) (r : log_record) : M unit :=
  fun st => (Ok tt, st, [EvLog lvl r]).

(** A call into the driver: the event is recorded, the world moves on. *)
Definition call {A} (ev : event) (op : W -> outcome A * W) : M A :=
  fun st =>
    match op (st_world st) with
    | (r, w) => (r, State w (st_conn st), [ev])
    end.

Definition set_conn (c : option handle) : M unit :=
  fun st => (Ok tt, State (st_world st) c, []).

Definition get_conn : M (option handle) :=
  fun st => (Ok (st_conn st), st, []).

(** [try: body  except Exception as e: handler e] *)
Definition try_except {A} (body : M A) (handler : exc -> M A) : M A :=
  fun st =>
    match body st with
    | (Ok a, st1, t1) => (Ok a, st1, t1)
    | (Raise e, st1, t1) =>
        match handler e st1 with (r, st2, t2) => (r, st2, t1 ++ t2) end
    end.

(** [try: body  finally: fin]; an exception raised by [fin] replaces the
    outcome of [body]. *)
Definition try_finally {A} (body : M A) (fin : M unit) : M A :=
  fun st =>
    match body st with
    | (r, st1, t1) =>
        match fin st1 with
        | (Ok _, st2, t2) => (r, st2, t1 ++ t2)
        | (Raise e, st2, t2) => (Raise e, st2, t1 ++ t2)
        end
    end.

(** ** call_vector_service (lines 48-89) *)

(** [result.get(key)]: a method of dicts only. *)
Definition py_get (v : pyval) (key : string) : M pyval :=
  match v with
  | PDict d => mret (default PNone (d !! key))
  | _ => raise (no_attribute v "get")
  end.

(** [v[0]] for a value already known to be a non-empty list. *)
Definition py_first (v : pyval) : M pyval :=
  match v with
  | PList (x :: _) => mret x
  | _ => raise (Exc OtherException "list index out of range" None)
  end.

Definition config_complete : bool :=
  forallb truthy [of_env (VECTOR_SERVICE_URL cfg);
                  of_env (VECTOR_MODEL cfg);
                  of_env (VECTOR_USER cfg)].

(** The request body of lines 53-57, for a text that is a string. *)
Definition payload_of (s : string) : pyval :=
  PDict (<["input" := PList [PStr (str_strip s)]]>
         (<["model" := of_env (VECTOR_MODEL cfg)]>
         (<["user" := of_env (VECTOR_USER cfg)]> ∅))).

Definition call_vector_service (text : pyval) : M pyval :=
  if negb config_complete then
    logger ERROR LogConfigIncomplete;;
    raise (Exc ValueError "向量服务内部配置缺失" None)
  else
    match text with
    | PStr s =>
        let payload := payload_of s in
        try_except
          (logger DEBUG (LogCallingService (slice_to 50 s));;
           response ← call (EvPost (of_env (VECTOR_SERVICE_URL cfg))
                                   (VECTOR_HEADERS cfg) payload 60)
                           (requests_post (of_env (VECTOR_SERVICE_URL cfg))
                                          (VECTOR_HEADERS cfg) payload 60);
           (fun st => (raise_for_status response, st, []));;
           result ← (fun st => (json response, st, []));
           data ← py_get result "data";
           if negb (truthy data) || negb (isinstance_list data)
              || len_is_zero data then
             logger ERROR (LogBadResponse result);;
             raise (Exc ValueError "向量服务返回无有效embedding数据" None)
           else
             first ← py_first data;
             embedding ← py_get first "embedding";
             if negb (truthy embedding) || negb (isinstance_list embedding)
             then
               logger ERROR (LogMissingEmbedding result);;
               raise (Exc ValueError "向量服务返回格式非法" None)
             else mret embedding)
          (fun e =>
             if is_RequestException e then
               let error_msg :=
                 "向量服务调用失败：" +:+ exc_str e +:+
                 match exc_response e with
                 | Some body => "，响应内容：" +:+ slice_to 200 body
                 | None => EmptyString
                 end in
               logger ERROR (LogCallFailed error_msg);;
               raise (Exc ConnectionError error_msg None)
             else
               logger ERROR (LogGenerationError (exc_str e));;
               raise (Exc RuntimeError ("向量生成失败：" +:+ exc_str e) None))
    | _ =>
        (* [text.strip()] of line 54, outside the [try] block *)
        raise (no_attribute text "strip")
    end.

(** ** batch_refresh_embeddings (lines 93-191) *)

(** [', '.join(names)] *)
Fixpoint join (sep : string) (names : list string) : string :=
  match names with
  | [] => EmptyString
  | [x] => x
  | x :: rest => x +:+ sep +:+ join sep rest
  end.

(** Lines 163-173, the [try] block of the loop body, for the row at
    position [idx] of [enumerate(rows, 1)].  The counters are passed in and
    out; the only statement of the block after [success_count += 1] is a
    logger call. *)
Definition update_row (cur : handle) (params : RefreshEmbeddingParams)
    (full_table_name : string) (total idx : nat) (row : table_row)
    (counts : nat * nat) : M (nat * nat) :=
  embedding ← call_vector_service (row_text row);
  call (EvExecute cur (UpdateVector full_table_name
                         (vector_field_name params) embedding (row_id row)))
       (cur_execute cur (UpdateVector full_table_name
                           (vector_field_name params) embedding (row_id row)));;
  (if Nat.eqb (idx mod 10) 0
   then logger INFO (LogProgress idx total) else mret tt);;
  mret (S (fst counts), snd counts).

(** Lines 159-177, the loop body with its [except] clause. *)
Definition process_row (cur : handle) (params : RefreshEmbeddingParams)
    (full_table_name : string) (total idx : nat) (row : table_row)
    (counts : nat * nat) : M (nat * nat) :=
  try_except
    (update_row cur params full_table_name total idx row counts)
    (fun e =>
       logger ERROR (LogRowFailed idx (row_id row) (exc_str e));;
       mret (fst counts, S (snd counts))).

(** The [for] loop (lines 158-177): an exception that leaves the body
    would leave the loop. *)
Fixpoint process_rows (cur : handle) (params : RefreshEmbeddingParams)
    (full_table_name : string) (total idx : nat) (rows : list table_row)
    (counts : nat * nat) : M (nat * nat) :=
  match rows with
  | [] => mret counts
  | row :: rest =>
      counts' ← process_row cur params full_table_name total idx row counts;
      process_rows cur params full_table_name total (S idx) rest counts'
  end.

(** Lines 119-137: no table matches. *)
Definition report_tables (cur : handle) (params : RefreshEmbeddingParams)
    : M unit :=
  logger ERROR (LogNoMatchingTable (table_name params));;
  call (EvExecute cur SelectAllTables) (cur_execute cur SelectAllTables);;
  all_tables ← call (EvFetchall cur) (cur_fetchall_tables cur);
  match all_tables with
  | _ :: _ =>
      let table_names := row_table_name <$> all_tables in
      logger ERROR (LogAllTables (db_name params) (join ", " table_names))
  | [] => logger ERROR (LogNoTables (db_name params))
  end.

(** Lines 138-180: the table [match_table] names is refreshed. *)
Definition refresh_table (conn cur : handle) (params : RefreshEmbeddingParams)
    (match_table : catalog_row) : M unit :=
  let actual_table_name := row_table_name match_table in
  let full_table_name := "public." +:+ actual_table_name in
  logger INFO (LogMatchedTable full_table_name);;
  call (EvExecute cur (SelectRows full_table_name (text_field_name params)))
       (cur_execute cur
          (SelectRows full_table_name (text_field_name params)));;
  rows ← call (EvFetchall cur) (cur_fetchall cur);
  let total := length rows in
  logger INFO (LogRowsFound total);;
  if Nat.eqb total 0 then logger INFO LogNothingToUpdate
  else
    counts ← process_rows cur params full_table_name total 1 rows (0, 0);
    call (EvCommit conn) (conn_commit conn);;
    logger INFO (LogDone (fst counts) (snd counts)).

(** Lines 105-180, once [conn] is assigned. *)
Definition refresh_connected (conn : handle) (params : RefreshEmbeddingParams)
    : M unit :=
  call (EvRegisterVector conn) (register_vector conn);;
  cur ← call (EvCursor conn) (conn_cursor conn);
  call (EvExecute cur (SelectMatchingTable (table_name params)))
       (cur_execute cur (SelectMatchingTable (table_name params)));;
  match_table ← call (EvFetchone cur) (cur_fetchone cur);
  match match_table with
  | None => report_tables cur params
  | Some row => refresh_table conn cur params row
  end.

(** Lines 97-180, the [try] block. *)
Definition refresh_body (params : RefreshEmbeddingParams) : M unit :=
  logger INFO (LogConnecting (db_ip params) (db_port params) (db_name params));;
  conn ← call (EvConnect params) (psycopg2_connect params);
  set_conn (Some conn);;
  refresh_connected conn params.

(** Lines 182-187, the two [except] clauses. *)
Definition refresh_handler (e : exc) : M unit :=
  if is_psycopg2_Error e then
    conn ← get_conn;
    match conn with
    | Some c => call (EvRollback c) (conn_rollback c)
    | None => mret tt
    end;;
    logger ERROR (LogDatabaseFailed (exc_str e))
  else logger ERROR (LogJobException (exc_str e)).

(** Lines 188-191, the [finally] clause. *)
Definition refresh_finally : M unit :=
  conn ← get_conn;
  match conn with
  | Some c =>
      call (EvClose c) (conn_close c);;
      logger INFO LogConnectionClosed
  | None => mret tt
  end.

Definition batch_refresh_embeddings (params : RefreshEmbeddingParams)
    : M unit :=
  set_conn None;;
  try_finally (try_except (refresh_body params) refresh_handler)
              refresh_finally.

(** A job starts in a world [w] with no local variable set. *)
Definition run_job (params : RefreshEmbeddingParams) (w : W)
    : outcome unit * state * list event :=
  batch_refresh_embeddings params (State w None).

(** ** health_check (lines 215-221) *)

Definition health_check : gmap string pyval :=
  <["status" := PStr "healthy"]>
  (<["service" := PStr "pg-embedding-refresher"]>
  (<["vector_service_configured" :=
       PBool (truthy (of_env (VECTOR_SERVICE_URL cfg)))]> ∅)).

(** ** Classes of events and invariants of computations *)

Definition job_trace (params : RefreshEmbeddingParams) (w : W) : list event :=
  snd (run_job params w).

(** The events of a call of the embedding client. *)
Definition service_event (ev : event) : Prop :=
  match ev with
  | EvLog _ (LogConfigIncomplete | LogCallingService _ | LogBadResponse _
            | LogMissingEmbedding _ | LogCallFailed _ | LogGenerationError _)
  | EvPost _ _ _ _ => True
  | _ => False
  end.

(** The events of the processing loop over the table [full_table_name]. *)
Definition loop_event (cur : handle) (params : RefreshEmbeddingParams)
    (full_table_name : string) (ev : event) : Prop :=
  match ev with
  | EvExecute c (UpdateVector f v _ _) =>
      c = cur /\ f = full_table_name /\ v = vector_field_name params
  | EvLog _ (LogProgress _ _ | LogRowFailed _ _ _) => True
  | _ => service_event ev
  end.

(** Every event a computation emits satisfies [P], and the local variable
    [conn] is left as it was. *)
Definition emits {A} (P : event -> Prop) (m : M A) : Prop :=
  forall st, match m st with
             | (_, st', tr) => Forall P tr /\ st_conn st' = st_conn st
             end.

(** The events of connecting, of resolving the table and of listing the
    tables (lines 97-137). *)
Definition setup_event (ev : event) : Prop :=
  match ev with
  | EvLog _ (LogConnecting _ _ _ | LogNoMatchingTable _ | LogAllTables _ _
            | LogNoTables _)
  | EvConnect _ | EvRegisterVector _ | EvCursor _
  | EvExecute _ (SelectMatchingTable _ | SelectAllTables)
  | EvFetchone _ | EvFetchall _ => True
  | _ => False
  end.

(** The events of the two [except] clauses (lines 182-187). *)
Definition handler_event (ev : event) : Prop :=
  match ev with
  | EvRollback _ | EvLog _ (LogDatabaseFailed _ | LogJobException _) => True
  | _ => False
  end.

(** The runs of [refresh_table] (lines 138-180): its outcome and its
    events, path by path.  On the last two paths the loop ran over the
    fetched rows and left the counters [s] and [f]. *)
Inductive table_run (conn cur : handle) (params : RefreshEmbeddingParams)
    (full : string) : outcome unit -> list event -> Prop :=
  | run_select_failed e :
      table_run conn cur params full (Raise e)
        [EvLog INFO (LogMatchedTable full);
         EvExecute cur (SelectRows full (text_field_name params))]
  | run_fetch_failed e :
      table_run conn cur params full (Raise e)
        [EvLog INFO (LogMatchedTable full);
         EvExecute cur (SelectRows full (text_field_name params));
         EvFetchall cur]
  | run_no_rows :
      table_run conn cur params full (Ok tt)
        [EvLog INFO (LogMatchedTable full);
         EvExecute cur (SelectRows full (text_field_name params));
         EvFetchall cur;
         EvLog INFO (LogRowsFound 0);
         EvLog INFO LogNothingToUpdate]
  | run_commit_failed rows s f st st' tl e :
      rows <> [] ->
      process_rows cur params full (length rows) 1 rows (0, 0) st
        = (Ok (s, f), st', tl) ->
      table_run conn cur params full (Raise e)
        ([EvLog INFO (LogMatchedTable full);
          EvExecute cur (SelectRows full (text_field_name params));
          EvFetchall cur;
          EvLog INFO (LogRowsFound (length rows))] ++ tl ++ [EvCommit conn])
  | run_committed rows s f st st' tl :
      rows <> [] ->
      process_rows cur params full (length rows) 1 rows (0, 0) st
        = (Ok (s, f), st', tl) ->
      table_run conn cur params full (Ok tt)
        ([EvLog INFO (LogMatchedTable full);
          EvExecute cur (SelectRows full (text_field_name params));
          EvFetchall cur;
          EvLog INFO (LogRowsFound (length rows))] ++ tl ++
         [EvCommit conn; EvLog INFO (LogDone s f)]).

(** The events of the [try] block of the job: set-up events, followed by a
    run of [refresh_table] when a table matched. *)
Definition body_trace (params : RefreshEmbeddingParams) (conn : option handle)
    (r : outcome unit) (tb : list event) : Prop :=
  Forall setup_event tb \/
  exists c cur row pre tt,
    conn = Some c /\ tb = pre ++ tt /\ Forall setup_event pre /\
    table_run c cur params ("public." +:+ row_table_name row) r tt.

(** The events of the [finally] clause (lines 188-191): nothing without a
    connection, else the close, and its log line unless the close raised. *)
Definition cleanup_trace (conn : option handle) (tf : list event) : Prop :=
  match conn with
  | None => tf = []
  | Some c =>
      tf = [EvClose c; EvLog INFO LogConnectionClosed] \/ tf = [EvClose c]
  end.

(** The connection the job holds once [psycopg2.connect] has returned. *)
Definition opened (params : RefreshEmbeddingParams) (w : W) : option handle :=
  match fst (psycopg2_connect params w) with
  | Ok c => Some c
  | Raise _ => None
  end.

(** ** The shape of a response body, in the words of the specification *)

(** "Expect a [data] array with at least one element, each containing an
    [embedding] field that is a non-empty array; take the first element's
    embedding."  The other shapes are told apart by what is missing. *)
Inductive spec_body_shape : Type :=
  | Usable (embedding : pyval)
  | NoData            (* [data] missing, not an array, or empty *)
  | NoEmbedding       (* [embedding] missing, not an array, or empty *)
  | NotAnObject (v : pyval).  (* the body or its first element is no object *)

Definition spec_response_shape (result : pyval) : spec_body_shape :=
  match result with
  | PDict d =>
      match d !! "data" with
      | Some (PList (PDict first :: _)) =>
          match first !! "embedding" with
          | Some (PList (x :: l)) => Usable (PList (x :: l))
          | _ => NoEmbedding
          end
      | Some (PList (first :: _)) => NotAnObject first
      | _ => NoData
      end
  | _ => NotAnObject result
  end.

(** The events of a call that reaches the service. *)
Definition posted (s : string) : list event :=
  [EvLog DEBUG (LogCallingService (slice_to 50 s));
   EvPost (of_env (VECTOR_SERVICE_URL cfg)) (VECTOR_HEADERS cfg)
          (payload_of s) 60].

(** What the caller of [call_vector_service] gets for each shape. *)
Definition wrapped (cause : string) : exc :=
  Exc RuntimeError ("向量生成失败：" +:+ cause) None.

Definition shape_outcome (result : pyval)
    : outcome pyval * list event :=
  match spec_response_shape result with
  | Usable embedding => (Ok embedding, [])
  | NoData =>
      (Raise (wrapped "向量服务返回无有效embedding数据"),
       [EvLog ERROR (LogBadResponse result);
        EvLog ERROR (LogGenerationError "向量服务返回无有效embedding数据")])
  | NoEmbedding =>
      (Raise (wrapped "向量服务返回格式非法"),
       [EvLog ERROR (LogMissingEmbedding result);
        EvLog ERROR (LogGenerationError "向量服务返回格式非法")])
  | NotAnObject v =>
      (Raise (wrapped (exc_str (no_attribute v "get"))),
       [EvLog ERROR (LogGenerationError (exc_str (no_attribute v "get")))])
  end.

(** ** Further classes of events *)

Definition is_str (v : pyval) : bool :=
  match v with PStr _ => true | _ => false end.

Definition is_post (ev : event) : bool :=
  match ev with EvPost _ _ _ _ => true | _ => false end.

Definition is_rollback (ev : event) : bool :=
  match ev with EvRollback _ => true | _ => false end.

(** The row an update statement addresses ([WHERE id = %s]). *)
Definition updated_id (ev : event) : option pyval :=
  match ev with
  | EvExecute _ (UpdateVector _ _ _ record_id) => Some record_id
  | _ => None
  end.

(** The position and identifier a failure line of line 176 names. *)
Definition failed_row (ev : event) : option (nat * pyval) :=
  match ev with
  | EvLog _ (LogRowFailed idx record_id _) => Some (idx, record_id)
  | _ => None
  end.

(** The position and total a progress line of line 173 names. *)
Definition progress_of (ev : event) : option (nat * nat) :=
  match ev with
  | EvLog _ (LogProgress idx total) => Some (idx, total)
  | _ => None
  end.


(** An environment value that [all] (line 49) and [bool] take as false. *)
Definition unset_or_empty (o : option string) : Prop :=
  o = None \/ o = Some EmptyString.

(** The HTTP exchange of lines 61-68 for the text [s] raises [e] and leaves
    the world [w1]: the request itself fails, or [raise_for_status()]
    rejects its response, or [json()] cannot decode it. *)
Definition exchange_raises (s : string) (w : W) (e : exc) (w1 : W) : Prop :=
  requests_post (of_env (VECTOR_SERVICE_URL cfg)) (VECTOR_HEADERS cfg)
                (payload_of s) 60 w = (Raise e, w1)
  \/ exists resp,
       requests_post (of_env (VECTOR_SERVICE_URL cfg)) (VECTOR_HEADERS cfg)
                     (payload_of s) 60 w = (Ok resp, w1) /\
       (raise_for_status resp = Raise e \/
        (raise_for_status resp = Ok tt /\ json resp = Raise e)).

(** The message of lines 82-84. *)
Definition transport_message (e : exc) : string :=
  "向量服务调用失败：" +:+ exc_str e +:+
  match exc_response e with
  | Some body => "，响应内容：" +:+ slice_to 200 body
  | None => EmptyString
  end.

Definition is_job_exception (ev : event) : bool :=
  match ev with EvLog _ (LogJobException _) => true | _ => false end.


(** The error line of line 119. *)
Definition is_no_match (ev : event) : bool :=
  match ev with EvLog _ (LogNoMatchingTable _) => true | _ => false end.

(** The work on the rows of a table: the row query, the updates, the
    commit and the requests to the embedding service. *)
Definition is_row_work (ev : event) : bool :=
  match ev with
  | EvExecute _ (SelectRows _ _ | UpdateVector _ _ _ _)
  | EvCommit _ | EvPost _ _ _ _ => true
  | _ => false
  end.
(** * Properties *)

(** ** The monad *)

Lemma bind_run {A B} (m : M A) (k : A -> M B) st :
  (m ≫= k) st =
  match m st with
  | (Ok a, st1, t1) =>
      match k a st1 with (r, st2, t2) => (r, st2, t1 ++ t2) end
  | (Raise e, st1, t1) => (Raise e, st1, t1)
  end.
Proof. reflexivity. Qed.

Lemma bind_Ok {A B} (m : M A) (k : A -> M B) st a st1 t1 :
  m st = (Ok a, st1, t1) ->
  (m ≫= k) st = match k a st1 with (r, st2, t2) => (r, st2, t1 ++ t2) end.
Proof. intros Hm. by rewrite bind_run, Hm. Qed.

Lemma bind_Raise {A B} (m : M A) (k : A -> M B) st e st1 t1 :
  m st = (Raise e, st1, t1) -> (m ≫= k) st = (Raise e, st1, t1).
Proof. intros Hm. by rewrite bind_run, Hm. Qed.

Lemma bind_Ok_inv {A B} (m : M A) (k : A -> M B) st b st2 tr :
  (m ≫= k) st = (Ok b, st2, tr) ->
  exists a st1 t1 t2,
    m st = (Ok a, st1, t1) /\ k a st1 = (Ok b, st2, t2) /\ tr = t1 ++ t2.
Proof.
  rewrite bind_run. destruct (m st) as [[[a|e] st1] t1]; [|done].
  destruct (k a st1) as [[r st'] t2] eqn:Hk. intros [= -> -> <-].
  by exists a, st1, t1, t2.
Qed.

Lemma try_except_Ok {A} (m : M A) h st a st1 t1 :
  m st = (Ok a, st1, t1) -> try_except m h st = (Ok a, st1, t1).
Proof. intros Hm. unfold try_except. by rewrite Hm. Qed.

Lemma try_except_Raise {A} (m : M A) h st e st1 t1 :
  m st = (Raise e, st1, t1) ->
  try_except m h st =
  match h e st1 with (r, st2, t2) => (r, st2, t1 ++ t2) end.
Proof. intros Hm. unfold try_except. by rewrite Hm. Qed.

(** ** Rules for [emits] *)

Lemma emits_ret {A} P (a : A) : emits P (mret a).
Proof. intros st. cbn. auto. Qed.

Lemma emits_raise {A} P e : emits P (raise e : M A).
Proof. intros st. cbn. auto. Qed.

Lemma emits_pure {A} P (r : outcome A) : emits P (fun st => (r, st, [])).
Proof. intros st. cbn. auto. Qed.

Lemma emits_logger (P : event -> Prop) lvl r :
  P (EvLog lvl r) -> emits P (logger lvl r).
Proof. intros HP st. cbn. auto. Qed.

Lemma emits_call {A} (P : event -> Prop) ev (op : W -> outcome A * W) :
  P ev -> emits P (call ev op).
Proof. intros HP st. unfold call. destruct (op _). cbn. auto. Qed.

Lemma emits_bind {A B} P (m : M A) (k : A -> M B) :
  emits P m -> (forall a, emits P (k a)) -> emits P (m ≫= k).
Proof.
  intros Hm Hk st. rewrite bind_run. specialize (Hm st).
  destruct (m st) as [[[a|e] st1] t1]; [|done].
  specialize (Hk a st1). destruct (k a st1) as [[r st2] t2].
  destruct Hm as [? <-], Hk as [? ?]. split; [by apply Forall_app|done].
Qed.

Lemma emits_try_except {A} P (m : M A) h :
  emits P m -> (forall e, emits P (h e)) -> emits P (try_except m h).
Proof.
  intros Hm Hh st. unfold try_except. specialize (Hm st).
  destruct (m st) as [[[a|e] st1] t1]; [done|].
  specialize (Hh e st1). destruct (h e st1) as [[r st2] t2].
  destruct Hm as [? <-], Hh as [? ?]. split; [by apply Forall_app|done].
Qed.

Lemma emits_weaken {A} (P Q : event -> Prop) (m : M A) :
  (forall ev, P ev -> Q ev) -> emits P m -> emits Q m.
Proof.
  intros HPQ Hm st. specialize (Hm st). destruct (m st) as [[r st'] tr].
  destruct Hm as [Hm ?]. split; [|done]. eapply Forall_impl; eauto.
Qed.

Lemma emits_run {A} P (m : M A) st r st' tr :
  emits P m -> m st = (r, st', tr) ->
  Forall P tr /\ st_conn st' = st_conn st.
Proof. intros Hm Hrun. specialize (Hm st). by rewrite Hrun in Hm. Qed.

Ltac emits_tac :=
  repeat first
    [ apply emits_ret | apply emits_raise | apply emits_pure
    | apply emits_logger; first [exact I | done]
    | apply emits_call; first [exact I | done]
    | apply emits_bind; [|intros ?]
    | apply emits_try_except; [|intros ?]
    | case_match ].

(** ** The embedding client and the loop emit only their own events *)

Lemma call_vector_service_emits text :
  emits service_event (call_vector_service text).
Proof. unfold call_vector_service, py_get, py_first. emits_tac. Qed.

Lemma service_loop_event cur params full ev :
  service_event ev -> loop_event cur params full ev.
Proof. by destruct ev as [| | | ? [] | | | | | | |? []]. Qed.

Lemma update_row_emits cur params full total idx row counts :
  emits (loop_event cur params full)
        (update_row cur params full total idx row counts).
Proof.
  unfold update_row. apply emits_bind.
  { eapply emits_weaken; [apply service_loop_event|].
    apply call_vector_service_emits. }
  intros emb. emits_tac.
Qed.

Lemma process_row_emits cur params full total idx row counts :
  emits (loop_event cur params full)
        (process_row cur params full total idx row counts).
Proof.
  unfold process_row. apply emits_try_except; [apply update_row_emits|].
  intros e. emits_tac.
Qed.

Lemma process_rows_emits cur params full total rows : forall idx counts,
  emits (loop_event cur params full)
        (process_rows cur params full total idx rows counts).
Proof.
  induction rows as [|row rest IH]; intros idx counts; cbn [process_rows].
  - apply emits_ret.
  - apply emits_bind; [apply process_row_emits|]. intros c. apply IH.
Qed.

(** ** One row, one counter *)

Lemma update_row_Ok cur params full total idx row counts st c st' tr :
  update_row cur params full total idx row counts st = (Ok c, st', tr) ->
  c = (S (fst counts), snd counts).
Proof.
  unfold update_row. intros Hrun.
  apply bind_Ok_inv in Hrun as (emb & st1 & t1 & t2 & _ & Hrun & _).
  apply bind_Ok_inv in Hrun as ([] & st2 & t3 & t4 & _ & Hrun & _).
  apply bind_Ok_inv in Hrun as ([] & st3 & t5 & t6 & _ & Hrun & _).
  by injection Hrun as <- _ _.
Qed.

Lemma process_row_Ok cur params full total idx row counts st c st' tr :
  update_row cur params full total idx row counts st = (Ok c, st', tr) ->
  process_row cur params full total idx row counts st =
  (Ok (S (fst counts), snd counts), st', tr).
Proof.
  intros Hrun. unfold process_row. erewrite try_except_Ok; [|exact Hrun].
  by rewrite (update_row_Ok _ _ _ _ _ _ _ _ _ _ _ Hrun).
Qed.

Lemma process_row_Raise cur params full total idx row counts st e st' tr :
  update_row cur params full total idx row counts st = (Raise e, st', tr) ->
  process_row cur params full total idx row counts st =
  (Ok (fst counts, S (snd counts)), st',
   tr ++ [EvLog ERROR (LogRowFailed idx (row_id row) (exc_str e))]).
Proof.
  intros Hrun. unfold process_row. by erewrite try_except_Raise; [|exact Hrun].
Qed.

Lemma process_row_total cur params full total idx row counts st :
  exists c st' tr,
    process_row cur params full total idx row counts st = (Ok c, st', tr) /\
    (c = (S (fst counts), snd counts) \/ c = (fst counts, S (snd counts))).
Proof.
  destruct (update_row cur params full total idx row counts st)
    as [[[c|e] st'] tr] eqn:Hrun.
  - eexists _, _, _. split; [by eapply process_row_Ok|by left].
  - eexists _, _, _. split; [by eapply process_row_Raise|by right].
Qed.

Lemma process_rows_total cur params full total rows : forall idx counts st,
  exists c st' tr,
    process_rows cur params full total idx rows counts st = (Ok c, st', tr) /\
    fst c + snd c = fst counts + snd counts + length rows.
Proof.
  induction rows as [|row rest IH]; intros idx counts st; cbn [process_rows].
  - exists counts, st, []. split; [done|]. cbn. lia.
  - destruct (process_row_total cur params full total idx row counts st)
      as (c1 & st1 & t1 & Hrow & Hc1).
    destruct (IH (S idx) c1 st1) as (c2 & st2 & t2 & Hrest & Hc2).
    exists c2, st2, (t1 ++ t2). split.
    + erewrite bind_Ok; [|exact Hrow]. by rewrite Hrest.
    + rewrite Hc2. cbn [length]. destruct Hc1 as [-> | ->]; cbn; lia.
Qed.

(** ** The runs of the job *)

Ltac exec :=
  repeat first
    [ rewrite bind_run
    | progress unfold logger, call, set_conn, get_conn, raise
    | progress cbn [mret M_ret st_world st_conn fst snd app] ].

Lemma refresh_table_run conn cur params row st r st' tr :
  refresh_table conn cur params row st = (r, st', tr) ->
  table_run conn cur params ("public." +:+ row_table_name row) r tr /\
  st_conn st' = st_conn st.
Proof.
  unfold refresh_table. exec.
  destruct (cur_execute _ _ _) as [[[]|e] w1]; exec.
  2:{ intros [= <- <- <-]. split; [constructor|done]. }
  destruct (cur_fetchall _ _) as [[rows|e] w2]; exec.
  2:{ intros [= <- <- <-]. split; [constructor|done]. }
  destruct (Nat.eqb_spec (length rows) 0) as [Hlen|Hlen]; exec.
  { rewrite Hlen. intros [= <- <- <-]. split; [constructor|done]. }
  assert (rows <> []) as Hrows by (by intros ->).
  destruct (process_rows_total cur params
              ("public." +:+ row_table_name row) (length rows) rows 1 (0, 0)
              (State w2 (st_conn st))) as ([s f] & st1 & tl & Hloop & _).
  destruct (emits_run _ _ _ _ _ _
              (process_rows_emits cur params _ (length rows) rows 1 (0, 0))
              Hloop) as [_ Hconn].
  rewrite Hloop. cbn in Hconn. exec.
  destruct (conn_commit _ _) as [[[]|e] w3]; exec.
  - intros [= <- <- <-]. split; [|done]. by eapply run_committed.
  - intros [= <- <- <-]. split; [|done]. by eapply run_commit_failed.
Qed.

Lemma emits_get_conn P : emits P get_conn.
Proof. intros st. cbn. auto. Qed.

Lemma report_tables_emits cur params :
  emits setup_event (report_tables cur params).
Proof. unfold report_tables. emits_tac. Qed.

Lemma refresh_handler_emits e : emits handler_event (refresh_handler e).
Proof.
  unfold refresh_handler. case_match; [|emits_tac].
  apply emits_bind; [apply emits_get_conn|]. intros [c|]; emits_tac.
Qed.

Lemma refresh_finally_run st r st' tr :
  refresh_finally st = (r, st', tr) ->
  cleanup_trace (st_conn st) tr /\ st_conn st' = st_conn st.
Proof.
  unfold refresh_finally. exec. destruct (st_conn st) as [c|] eqn:Hc; exec.
  - destruct (conn_close _ _) as [[[]|e] w1]; exec;
      intros [= <- <- <-]; cbn; auto.
  - intros [= <- <- <-]. by rewrite Hc.
Qed.

Lemma refresh_connected_run c params st r st' tr :
  refresh_connected c params st = (r, st', tr) ->
  body_trace params (Some c) r tr /\ st_conn st' = st_conn st.
Proof.
  unfold refresh_connected. exec.
  destruct (register_vector _ _) as [[[]|e] w1]; exec.
  2:{ intros [= <- <- <-]. split; [left; by repeat constructor|done]. }
  destruct (conn_cursor _ _) as [[cur|e] w2]; exec.
  2:{ intros [= <- <- <-]. split; [left; by repeat constructor|done]. }
  destruct (cur_execute _ _ _) as [[[]|e] w3]; exec.
  2:{ intros [= <- <- <-]. split; [left; by repeat constructor|done]. }
  destruct (cur_fetchone _ _) as [[[row|]|e] w4]; exec.
  3:{ intros [= <- <- <-]. split; [left; by repeat constructor|done]. }
  - destruct (refresh_table c cur params row (State w4 (st_conn st)))
      as [[r1 st1] t1] eqn:Hrun.
    apply refresh_table_run in Hrun as [Hrun Hconn].
    intros [= <- <- <-]. split; [|done]. right.
    exists c, cur, row,
      [EvRegisterVector c; EvCursor c;
       EvExecute cur (SelectMatchingTable (table_name params));
       EvFetchone cur], t1.
    by repeat split; [repeat constructor..|].
  - destruct (report_tables cur params (State w4 (st_conn st)))
      as [[r1 st1] t1] eqn:Hrun.
    eapply emits_run in Hrun as [Hev Hconn]; [|apply report_tables_emits].
    intros [= <- <- <-]. split; [|done]. left. by repeat constructor.
Qed.

Lemma refresh_body_run params w r st' tr :
  refresh_body params (State w None) = (r, st', tr) ->
  body_trace params (st_conn st') r tr /\ st_conn st' = opened params w.
Proof.
  unfold refresh_body, opened. exec.
  destruct (psycopg2_connect params w) as [[c|e] w1]; exec.
  2:{ intros [= <- <- <-]. split; [left; by repeat constructor|done]. }
  destruct (refresh_connected c params (State w1 (Some c)))
    as [[r1 st1] t1] eqn:Hrun.
  apply refresh_connected_run in Hrun as [Hrun Hconn]. cbn in Hconn.
  intros [= <- <- <-]. rewrite Hconn. split; [|done].
  destruct Hrun as [Hev|(c' & cur & row & pre & tt' & Hc & -> & Hpre & Hrun)].
  - left. by repeat constructor.
  - right. exists c', cur, row,
      (EvLog INFO (LogConnecting (db_ip params) (db_port params)
                                 (db_name params))
       :: EvConnect params :: pre), tt'.
    by repeat split; [repeat constructor..|].
Qed.

Lemma run_job_parts params w r st tr :
  run_job params w = (r, st, tr) ->
  exists rb tb th tf,
    tr = tb ++ th ++ tf /\
    body_trace params (st_conn st) rb tb /\
    Forall handler_event th /\ (rb = Ok tt -> th = []) /\
    cleanup_trace (st_conn st) tf /\
    st_conn st = opened params w.
Proof.
  unfold run_job, batch_refresh_embeddings. exec.
  unfold try_finally, try_except.
  destruct (refresh_body params (State w None)) as [[rb stb] tb] eqn:Hbody.
  apply refresh_body_run in Hbody as [Hbody Hopen].
  destruct rb as [[]|e].
  - destruct (refresh_finally stb) as [[rf stf] tf] eqn:Hfin.
    apply refresh_finally_run in Hfin as [Hfin Hconn].
    assert (tr = tb ++ [] ++ tf -> st_conn st = st_conn stf ->
            exists rb tb0 th tf0, tr = tb0 ++ th ++ tf0 /\
              body_trace params (st_conn st) rb tb0 /\
              Forall handler_event th /\ (rb = Ok tt -> th = []) /\
              cleanup_trace (st_conn st) tf0 /\
              st_conn st = opened params w) as Hgoal.
    { intros -> Hst. exists (Ok tt), tb, [], tf. rewrite Hst, Hconn.
      by repeat split. }
    destruct rf as [[]|e]; intros [= <- <- <-]; by apply Hgoal.
  - destruct (refresh_handler e stb) as [[rh sth] th] eqn:Hh.
    eapply emits_run in Hh as [Hh Hconn1]; [|apply refresh_handler_emits].
    destruct (refresh_finally sth) as [[rf stf] tf] eqn:Hfin.
    apply refresh_finally_run in Hfin as [Hfin Hconn2].
    assert (tr = tb ++ th ++ tf -> st_conn st = st_conn stf ->
            exists rb tb0 th0 tf0, tr = tb0 ++ th0 ++ tf0 /\
              body_trace params (st_conn st) rb tb0 /\
              Forall handler_event th0 /\ (rb = Ok tt -> th0 = []) /\
              cleanup_trace (st_conn st) tf0 /\
              st_conn st = opened params w) as Hgoal.
    { intros -> Hst. exists (Raise e), tb, th, tf.
      rewrite Hst, Hconn2, Hconn1. rewrite Hconn1 in Hfin. by repeat split. }
    destruct rf as [[]|e']; intros [= <- <- <-];
      apply Hgoal; by rewrite <- ?app_assoc.
Qed.

(** ** The embedding client *)

Lemma config_incomplete_run text st :
  config_complete = false ->
  call_vector_service text st =
  (Raise (Exc ValueError "向量服务内部配置缺失" None), st,
   [EvLog ERROR LogConfigIncomplete]).
Proof. intros Hcfg. unfold call_vector_service. by rewrite Hcfg. Qed.

Lemma absent_config_incomplete :
  VECTOR_SERVICE_URL cfg = None \/ VECTOR_MODEL cfg = None \/
  VECTOR_USER cfg = None ->
  config_complete = false.
Proof.
  unfold config_complete. intros [H|[H|H]]; rewrite H; cbn;
    rewrite ?andb_false_r; done.
Qed.

Ltac service_run :=
  repeat first
    [ progress exec
    | progress unfold py_get, py_first
    | progress cbn [truthy isinstance_list len_is_zero negb orb default from_option id length
                    Nat.eqb
                    is_RequestException exc_cls exc_str no_attribute
                    fst snd app] ].

Lemma response_run s st resp w1 result :
  config_complete = true ->
  requests_post (of_env (VECTOR_SERVICE_URL cfg)) (VECTOR_HEADERS cfg)
                (payload_of s) 60 (st_world st) = (Ok resp, w1) ->
  raise_for_status resp = Ok tt ->
  json resp = Ok result ->
  call_vector_service (PStr s) st =
  (fst (shape_outcome result), State w1 (st_conn st),
   posted s ++ snd (shape_outcome result)).
Proof.
  intros Hcfg Hpost Hstatus Hjson. unfold call_vector_service.
  rewrite Hcfg. cbn [negb]. unfold try_except.
  exec. rewrite Hpost, Hstatus, Hjson. exec.
  unfold shape_outcome, spec_response_shape, posted.
  destruct result as [| | | | |l|d]; try (by service_run).
  service_run. destruct (d !! "data") as [data|]; [|by service_run].
  destruct data as [| [] | n | f | s0 | l | d0]; try (by service_run).
  - service_run. destruct (n =? 0)%Z; by service_run.
  - destruct f; by service_run.
  - service_run. destruct (String.eqb s0 EmptyString); by service_run.
  - destruct l as [|first l]; [by service_run|].
    destruct first as [| | | | | |f]; try (by service_run).
    service_run. destruct (f !! "embedding") as [emb|]; [|by service_run].
    destruct emb as [| [] | n | f0 | s0 | l0 | d0]; try (by service_run).
    + service_run. destruct (n =? 0)%Z; by service_run.
    + destruct f0; by service_run.
    + service_run. destruct (String.eqb s0 EmptyString); by service_run.
    + destruct l0; by service_run.
    + service_run. destruct (Nat.eqb (size d0) 0); by service_run.
  - service_run. destruct (Nat.eqb (size d0) 0); by service_run.
Qed.

(** ** Counting events *)

Lemma filter_none (f : event -> bool) (P : event -> Prop) l :
  (forall ev, P ev -> f ev = false) -> Forall P l -> List.filter f l = [].
Proof.
  intros HP. induction 1 as [|ev l Hev _ IH]; [done|].
  cbn. by rewrite (HP ev Hev).
Qed.

Lemma in_class (P : event -> Prop) ev l : Forall P l -> In ev l -> P ev.
Proof.
  intros Hall Hin. rewrite Forall_forall in Hall.
  apply Hall. by apply list_elem_of_In.
Qed.

Lemma loop_event_quiet cur params full ev :
  loop_event cur params full ev ->
  is_close ev = false /\ is_commit ev = false /\ is_tally ev = false.
Proof. by destruct ev as [| | |? []| | | | | | |? []]. Qed.

Lemma setup_event_quiet ev :
  setup_event ev ->
  is_close ev = false /\ is_commit ev = false /\ is_tally ev = false /\
  is_update ev = false.
Proof. by destruct ev as [| | |? []| | | | | | |? []]. Qed.

Lemma handler_event_quiet ev :
  handler_event ev ->
  is_close ev = false /\ is_commit ev = false /\ is_tally ev = false /\
  is_update ev = false.
Proof. by destruct ev as [| | |? []| | | | | | |? []]. Qed.

Lemma loop_facts cur params full total idx rows counts st c st' tl :
  process_rows cur params full total idx rows counts st = (Ok c, st', tl) ->
  Forall (loop_event cur params full) tl /\
  fst c + snd c = fst counts + snd counts + length rows.
Proof.
  intros Hloop. split.
  - eapply emits_run; [apply process_rows_emits|exact Hloop].
  - destruct (process_rows_total cur params full total rows idx counts st)
      as (c' & st1 & t1 & Hloop' & Hsum).
    rewrite Hloop in Hloop'. by injection Hloop' as <- _ _.
Qed.

Lemma table_run_no_close c cur params full r tt' :
  table_run c cur params full r tt' -> List.filter is_close tt' = [].
Proof.
  destruct 1 as [e|e| |rows s f st st' tl e _ Hloop|rows s f st st' tl _ Hloop];
    try done; apply loop_facts in Hloop as [Hev _];
    cbn [app List.filter is_close]; rewrite List.filter_app;
    rewrite (filter_none is_close _ tl (fun ev H =>
               proj1 (loop_event_quiet _ _ _ ev H)) Hev); done.
Qed.

Lemma body_trace_no_close params conn r tb :
  body_trace params conn r tb -> List.filter is_close tb = [].
Proof.
  intros [Hev|(c & cur & row & pre & tt' & _ & -> & Hpre & Hrun)].
  - eapply filter_none; [|exact Hev]. intros ev H.
    apply (setup_event_quiet ev H).
  - rewrite List.filter_app, (table_run_no_close _ _ _ _ _ _ Hrun).
    rewrite (filter_none is_close setup_event pre); [done| |done].
    intros ev H. apply (setup_event_quiet ev H).
Qed.

Lemma update_row_Ok_event cur params full total idx row counts st c st' tr :
  update_row cur params full total idx row counts st = (Ok c, st', tr) ->
  exists embedding,
    In (EvExecute cur (UpdateVector full (vector_field_name params)
                         embedding (row_id row))) tr.
Proof.
  unfold update_row. intros Hrun.
  apply bind_Ok_inv in Hrun as (emb & st1 & t1 & t2 & _ & Hrun & ->).
  apply bind_Ok_inv in Hrun as ([] & st2 & t3 & t4 & Hexec & _ & ->).
  exists emb. apply in_or_app. right. apply in_or_app. left.
  unfold call in Hexec. destruct (cur_execute _ _ _) as [r w1].
  injection Hexec as _ _ <-. by left.
Qed.

Lemma process_rows_app cur params full total pre : forall rest idx counts st,
  process_rows cur params full total idx (pre ++ rest) counts st =
  match process_rows cur params full total idx pre counts st with
  | (Ok c1, st1, t1) =>
      match process_rows cur params full total (idx + length pre) rest c1 st1
      with (r, st2, t2) => (r, st2, t1 ++ t2) end
  | (Raise e, st1, t1) => (Raise e, st1, t1)
  end.
Proof.
  induction pre as [|row pre IH]; intros rest idx counts st.
  - cbn. rewrite Nat.add_0_r. by destruct (process_rows _ _ _ _ _ _ _ _)
      as [[r st2] t2].
  - cbn [app process_rows length]. rewrite !bind_run.
    destruct (process_row _ _ _ _ _ _ _ _) as [[[c|e] st1] t1]; [|done].
    rewrite IH. rewrite <- Nat.add_succ_comm.
    destruct (process_rows cur params full total (S idx) pre c st1)
      as [[[c2|e] st2] t2]; [|done].
    destruct (process_rows _ _ _ _ _ rest _ _) as [[r st3] t3].
    by rewrite app_assoc.
Qed.

(** ** The tally of a job *)

Ltac not_listed H :=
  cbn in H; repeat (destruct H as [H|H]; [discriminate H|]); try contradiction.

(** A tally in the events of a job comes from a run of the loop over the
    fetched rows, whose number the job has logged before. *)
Lemma tally_from_loop params w success_count fail_count :
  In (EvLog INFO (LogDone success_count fail_count)) (job_trace params w) ->
  exists cur full rows st st' tl,
    process_rows cur params full (length rows) 1 rows (0, 0) st
      = (Ok (success_count, fail_count), st', tl) /\
    In (EvLog INFO (LogRowsFound (length rows))) (job_trace params w).
Proof.
  unfold job_trace. destruct (run_job params w) as [[r st] tr] eqn:Hrun.
  apply run_job_parts in Hrun
    as (rb & tb & th & tf & -> & Hbody & Hth & _ & Hfin & _).
  cbn [snd]. rewrite !in_app_iff. intros [Hin|[Hin|Hin]].
  - destruct Hbody
      as [Hev|(c & cur & row & pre & tt' & _ & -> & Hpre & Htable)].
    { by apply (in_class _ _ _ Hev) in Hin. }
    apply in_app_iff in Hin as [Hin|Hin].
    { by apply (in_class _ _ _ Hpre) in Hin. }
    destruct Htable
      as [e|e| |rows s f st0 st' tl e _ Hloop|rows s f st0 st' tl _ Hloop].
    + by not_listed Hin.
    + by not_listed Hin.
    + by not_listed Hin.
    + apply loop_facts in Hloop as [Hev _].
      cbn [app] in Hin. repeat (destruct Hin as [Hin|Hin]; [done|]).
      apply in_app_iff in Hin as [Hin|Hin].
      * by apply (in_class _ _ _ Hev) in Hin.
      * by not_listed Hin.
    + pose proof Hloop as [Hev _]%loop_facts.
      cbn [app] in Hin. repeat (destruct Hin as [Hin|Hin]; [done|]).
      apply in_app_iff in Hin as [Hin|Hin].
      * by apply (in_class _ _ _ Hev) in Hin.
      * cbn in Hin. destruct Hin as [|[Hin|[]]]; [done|].
        injection Hin as <- <-.
        exists cur, ("public." +:+ row_table_name row), rows, st0, st', tl.
        split; [exact Hloop|].
        apply in_or_app. left. apply in_or_app. right.
        cbn [app]. do 3 right. by left.
  - by apply (in_class _ _ _ Hth) in Hin.
  - destruct (st_conn st) as [c|]; cbn in Hfin; [|by subst].
    destruct Hfin as [-> | ->]; by not_listed Hin.
Qed.

(** ** The processing loop *)


(** C2.  Let [r2] follow [r1] in the fetched rows and let the processing of
    [r1] fail, that is, let the [try] block of the loop body raise, in the
    embedding call or in the update statement.  Then the failure is logged
    with the position and the identifier of [r1] and the failure counter
    grows by one; the loop goes on over the rows in between, runs its body
    on [r2] (which issues the update for [r2] or logs the failure of [r2]),
    goes on over the rows after [r2] and returns normally. *)
Theorem failed_row_does_not_stop_the_loop
    cur params full total idx pre r1 mid r2 post counts st
    c1 st1 t1 e st1' ta :
  process_rows cur params full total idx pre counts st = (Ok c1, st1, t1) ->
  update_row cur params full total (idx + length pre) r1 c1 st1
    = (Raise e, st1', ta) ->
  let i1 := idx + length pre in
  let i2 := S i1 + length mid in
  let failed := EvLog ERROR (LogRowFailed i1 (row_id r1) (exc_str e)) in
  process_row cur params full total i1 r1 c1 st1
    = (Ok (fst c1, S (snd c1)), st1', ta ++ [failed]) /\
  exists c2 st2 tm c3 st3 t2 c4 st4 tp,
    process_rows cur params full total (S i1) mid (fst c1, S (snd c1)) st1'
      = (Ok c2, st2, tm) /\
    process_row cur params full total i2 r2 c2 st2 = (Ok c3, st3, t2) /\
    ((exists embedding,
        In (EvExecute cur (UpdateVector full (vector_field_name params)
                             embedding (row_id r2))) t2 /\
        c3 = (S (fst c2), snd c2)) \/
     (exists msg,
        last t2 = Some (EvLog ERROR (LogRowFailed i2 (row_id r2) msg)) /\
        c3 = (fst c2, S (snd c2)))) /\
    process_rows cur params full total (S i2) post c3 st3 = (Ok c4, st4, tp) /\
    process_rows cur params full total idx
                 (pre ++ r1 :: mid ++ r2 :: post) counts st
      = (Ok c4, st4, t1 ++ (ta ++ [failed]) ++ tm ++ t2 ++ tp).
Proof.
  intros Hpre Hfail i1 i2 failed.
  pose proof (process_row_Raise _ _ _ _ _ _ _ _ _ _ _ Hfail) as Hr1.
  split; [exact Hr1|].
  destruct (process_rows_total cur params full total mid (S i1)
              (fst c1, S (snd c1)) st1') as (c2 & st2 & tm & Hmid & _).
  destruct (update_row cur params full total i2 r2 c2 st2)
    as [[[c3|e2] st3] t2] eqn:Hr2.
  - pose proof (process_row_Ok _ _ _ _ _ _ _ _ _ _ _ Hr2) as Hrow2.
    destruct (update_row_Ok_event _ _ _ _ _ _ _ _ _ _ _ Hr2) as [emb Hin].
    destruct (process_rows_total cur params full total post (S i2)
                (S (fst c2), snd c2) st3) as (c4 & st4 & tp & Hpost & _).
    exists c2, st2, tm, (S (fst c2), snd c2), st3, t2, c4, st4, tp.
    repeat split; [exact Hmid|exact Hrow2|left; eauto|exact Hpost|].
    rewrite process_rows_app, Hpre. cbn [process_rows].
    erewrite bind_Ok; [|exact Hr1]. fold i1.
    change (r2 :: post) with ([r2] ++ post).
    rewrite app_assoc, process_rows_app, process_rows_app, Hmid.
    cbn [process_rows]. fold i2. erewrite bind_Ok; [|exact Hrow2].
    cbn [mret M_ret]. rewrite length_app. cbn [length].
    replace (S i1 + (length mid + 1)) with (S i2) by (unfold i2; lia).
    rewrite Hpost. by rewrite app_nil_r, <- !app_assoc.
  - pose proof (process_row_Raise _ _ _ _ _ _ _ _ _ _ _ Hr2) as Hrow2.
    destruct (process_rows_total cur params full total post (S i2)
                (fst c2, S (snd c2)) st3) as (c4 & st4 & tp & Hpost & _).
    exists c2, st2, tm, (fst c2, S (snd c2)), st3,
      (t2 ++ [EvLog ERROR (LogRowFailed i2 (row_id r2) (exc_str e2))]),
      c4, st4, tp.
    repeat split; [exact Hmid|exact Hrow2| |exact Hpost|].
    { right. exists (exc_str e2). by rewrite last_snoc. }
    rewrite process_rows_app, Hpre. cbn [process_rows].
    erewrite bind_Ok; [|exact Hr1]. fold i1.
    change (r2 :: post) with ([r2] ++ post).
    rewrite app_assoc, process_rows_app, process_rows_app, Hmid.
    cbn [process_rows]. fold i2. erewrite bind_Ok; [|exact Hrow2].
    cbn [mret M_ret]. rewrite length_app. cbn [length].
    replace (S i1 + (length mid + 1)) with (S i2) by (unfold i2; lia).
    rewrite Hpost. by rewrite app_nil_r, <- !app_assoc.
Qed.

(** ** The connection *)

(** C3.  Once [psycopg2.connect] has returned a connection, the events of
    the job end with the one call of [close] on that connection (followed
    by its log line unless the close itself raised), whatever happened in
    between: a normal completion, no matching table, no rows, a database
    error with its rollback, or any other exception.  No other [close] is
    called. *)
Theorem connection_closed_exactly_once params w c w1 :
  psycopg2_connect params w = (Ok c, w1) ->
  List.filter is_close (job_trace params w) = [EvClose c] /\
  exists before,
    List.filter is_close before = [] /\
    (job_trace params w = before ++ [EvClose c; EvLog INFO LogConnectionClosed]
     \/ job_trace params w = before ++ [EvClose c]).
Proof.
  intros Hopen. unfold job_trace.
  destruct (run_job params w) as [[r st] tr] eqn:Hrun.
  apply run_job_parts in Hrun
    as (rb & tb & th & tf & -> & Hbody & Hth & _ & Hfin & Hconn).
  unfold opened in Hconn. rewrite Hopen in Hconn. cbn in Hconn.
  rewrite Hconn in Hfin. cbn in Hfin. cbn [snd].
  assert (List.filter is_close (tb ++ th) = []) as Hbefore.
  { rewrite List.filter_app, (body_trace_no_close _ _ _ _ Hbody).
    eapply filter_none; [|exact Hth]. intros ev H.
    apply (handler_event_quiet ev H). }
  rewrite app_assoc. split.
  - rewrite List.filter_app, Hbefore. by destruct Hfin as [-> | ->].
  - exists (tb ++ th). split; [done|]. destruct Hfin as [-> | ->]; auto.
Qed.

(** Without a connection nothing is closed. *)
Lemma nothing_closed_without_connection params w e w1 :
  psycopg2_connect params w = (Raise e, w1) ->
  List.filter is_close (job_trace params w) = [].
Proof.
  intros Hopen. unfold job_trace.
  destruct (run_job params w) as [[r st] tr] eqn:Hrun.
  apply run_job_parts in Hrun
    as (rb & tb & th & tf & -> & Hbody & Hth & _ & Hfin & Hconn).
  unfold opened in Hconn. rewrite Hopen in Hconn. cbn in Hconn.
  rewrite Hconn in Hfin. cbn in Hfin. subst tf. cbn [snd].
  rewrite app_nil_r, List.filter_app, (body_trace_no_close _ _ _ _ Hbody).
  eapply filter_none; [|exact Hth]. intros ev H.
  apply (handler_event_quiet ev H).
Qed.

(** ** A table without rows *)

(** C4, as the code has it.  When the fetch returns no row, the job logs
    that there is nothing to update and returns at once (lines 152-154):
    the events of the job end with the row count, that log line and the
    close of the connection; no commit is issued and no tally is logged. *)
Theorem zero_rows_returns_without_commit params w :
  In (EvLog INFO (LogRowsFound 0)) (job_trace params w) ->
  List.filter is_commit (job_trace params w) = [] /\
  List.filter is_tally (job_trace params w) = [] /\
  exists before c after,
    job_trace params w =
      before ++ [EvLog INFO (LogRowsFound 0); EvLog INFO LogNothingToUpdate]
             ++ after /\
    cleanup_trace (Some c) after.
Proof.
  unfold job_trace. destruct (run_job params w) as [[r st] tr] eqn:Hrun.
  apply run_job_parts in Hrun
    as (rb & tb & th & tf & -> & Hbody & Hth & Hok & Hfin & _).
  cbn [snd]. rewrite !in_app_iff. intros [Hin|[Hin|Hin]].
  - destruct Hbody
      as [Hev|(c & cur & row & pre & tt' & Hc & -> & Hpre & Htable)].
    { by apply (in_class _ _ _ Hev) in Hin. }
    apply in_app_iff in Hin as [Hin|Hin].
    { by apply (in_class _ _ _ Hpre) in Hin. }
    assert (forall l, Forall setup_event l ->
              List.filter is_commit l = [] /\ List.filter is_tally l = [])
      as Hsetup.
    { intros l Hl. split; (eapply filter_none; [|exact Hl]); intros ev H;
        apply (setup_event_quiet ev H). }
    destruct Htable
      as [e|e| |rows s f st0 st' tl e Hn Hloop|rows s f st0 st' tl Hn Hloop].
    + by not_listed Hin.
    + by not_listed Hin.
    + rewrite (Hok eq_refl). rewrite Hc in Hfin. cbn [app].
      rewrite !List.filter_app. destruct (Hsetup pre Hpre) as [-> ->].
      assert (List.filter is_commit tf = [] /\ List.filter is_tally tf = [])
        as [-> ->] by (by destruct Hfin as [-> | ->]).
      repeat split; try done.
      exists (pre ++ [EvLog INFO (LogMatchedTable
                                    ("public." +:+ row_table_name row));
                      EvExecute cur
                        (SelectRows ("public." +:+ row_table_name row)
                                    (text_field_name params));
                      EvFetchall cur]), c, tf.
      split; [by rewrite <- !app_assoc|done].
    + apply loop_facts in Hloop as [Hev _].
      cbn [app] in Hin. repeat (destruct Hin as [Hin|Hin]; [try done|]).
      { injection Hin as Hlen. by destruct rows. }
      apply in_app_iff in Hin as [Hin|Hin].
      * by apply (in_class _ _ _ Hev) in Hin.
      * by not_listed Hin.
    + apply loop_facts in Hloop as [Hev _].
      cbn [app] in Hin. repeat (destruct Hin as [Hin|Hin]; [try done|]).
      { injection Hin as Hlen. by destruct rows. }
      apply in_app_iff in Hin as [Hin|Hin].
      * by apply (in_class _ _ _ Hev) in Hin.
      * by not_listed Hin.
  - by apply (in_class _ _ _ Hth) in Hin.
  - destruct (st_conn st) as [c|]; cbn in Hfin; [|by subst].
    destruct Hfin as [-> | ->]; by not_listed Hin.
Qed.

(** ** Absent configuration and null texts *)

Lemma process_row_unconfigured cur params full total idx row counts st :
  config_complete = false ->
  process_row cur params full total idx row counts st =
  (Ok (fst counts, S (snd counts)), st,
   [EvLog ERROR LogConfigIncomplete;
    EvLog ERROR (LogRowFailed idx (row_id row) "向量服务内部配置缺失")]).
Proof.
  intros Hcfg.
  assert (update_row cur params full total idx row counts st =
          (Raise (Exc ValueError "向量服务内部配置缺失" None), st,
           [EvLog ERROR LogConfigIncomplete])) as Hrun.
  { unfold update_row. erewrite bind_Raise; [done|].
    by apply config_incomplete_run. }
  by rewrite (process_row_Raise _ _ _ _ _ _ _ _ _ _ _ Hrun).
Qed.

(** C7.  When the service URL, the model or the account is absent from the
    configuration, every call of the embedding client raises the
    configuration error of line 51 at once: the only event is the log line
    of line 50, no request is posted and the world is untouched.  The loop
    over [N] rows then catches that error once per row: it returns normally
    with the success counter unchanged and the failure counter grown by
    [N], so from (0, 0) with success 0 and failure [N]; its events are, for
    each row in turn, the two log lines of lines 50 and 176.  A tally the
    job logs is therefore success 0 and failure the number of rows it
    fetched. *)
Theorem absent_configuration_fails_every_row cur params full total :
  VECTOR_SERVICE_URL cfg = None \/ VECTOR_MODEL cfg = None \/
  VECTOR_USER cfg = None ->
  (forall text st,
     call_vector_service text st =
     (Raise (Exc ValueError "向量服务内部配置缺失" None), st,
      [EvLog ERROR LogConfigIncomplete])) /\
  (forall rows idx success_count fail_count st,
     process_rows cur params full total idx rows
                  (success_count, fail_count) st =
     (Ok (success_count, fail_count + length rows), st,
      concat (imap (fun i row =>
               [EvLog ERROR LogConfigIncomplete;
                EvLog ERROR (LogRowFailed (idx + i) (row_id row)
                                          "向量服务内部配置缺失")])
             rows))) /\
  (forall w success_count fail_count,
     In (EvLog INFO (LogDone success_count fail_count)) (job_trace params w) ->
     success_count = 0 /\
     In (EvLog INFO (LogRowsFound fail_count)) (job_trace params w)).
Proof.
  intros Habsent. apply absent_config_incomplete in Habsent as Hcfg.
  split; [intros text st; by apply config_incomplete_run|].
  assert (forall cur full total rows idx s f st,
            process_rows cur params full total idx rows (s, f) st =
            (Ok (s, f + length rows), st,
             concat (imap (fun i row =>
               [EvLog ERROR LogConfigIncomplete;
                EvLog ERROR (LogRowFailed (idx + i) (row_id row)
                                          "向量服务内部配置缺失")])
             rows))) as Hloop; cycle 1.
  { split; [apply Hloop|]. intros w s f Hin.
    apply tally_from_loop in Hin
      as (cur' & full' & rows' & st & st' & tl & Hrun & Hfound).
    rewrite Hloop in Hrun. by injection Hrun as <- <- _ _. }
  clear cur full total. intros cur full total.
  induction rows as [|row rest IH]; intros idx s f st.
  - cbn. by rewrite Nat.add_0_r.
  - cbn [process_rows]. erewrite bind_Ok;
      [|by apply process_row_unconfigured].
    cbn [fst snd]. rewrite IH. cbn [imap concat length].
    rewrite Nat.add_0_r, <- plus_n_Sm.
    do 3 f_equal. apply imap_ext. intros i x _. cbn.
    by rewrite <- plus_n_Sm.
Qed.

(** C9.  A row whose text is null is one failure and nothing else: the
    embedding call raises before a request is built (with a complete
    configuration it is [None.strip()] of line 54 that raises, otherwise
    the configuration check before it), the handler of the row logs the
    failure with the identifier of the row and adds one to the failure
    counter, the world is untouched (no request, no update), and the loop
    goes on with the next row. *)
Theorem null_text_counts_as_failure cur params full total idx record_id
    counts st :
  exists before msg,
    let row := TableRow record_id PNone in
    let events := before ++ [EvLog ERROR (LogRowFailed idx record_id msg)] in
    process_row cur params full total idx row counts st
      = (Ok (fst counts, S (snd counts)), st, events) /\
    ((config_complete = true /\ before = [] /\
      msg = "'NoneType' object has no attribute 'strip'") \/
     (config_complete = false /\ before = [EvLog ERROR LogConfigIncomplete] /\
      msg = "向量服务内部配置缺失")) /\
    forall rest,
      process_rows cur params full total idx (row :: rest) counts st =
      match process_rows cur params full total (S idx) rest
                         (fst counts, S (snd counts)) st with
      | (r, st', tr) => (r, st', events ++ tr)
      end.
Proof.
  destruct config_complete eqn:Hcfg.
  - exists [], "'NoneType' object has no attribute 'strip'".
    assert (process_row cur params full total idx (TableRow record_id PNone)
              counts st =
            (Ok (fst counts, S (snd counts)), st,
             [EvLog ERROR (LogRowFailed idx record_id
                "'NoneType' object has no attribute 'strip'")])) as Hrow.
    { assert (update_row cur params full total idx
                (TableRow record_id PNone) counts st =
              (Raise (no_attribute PNone "strip"), st, [])) as Hrun.
      { unfold update_row. erewrite bind_Raise; [done|].
        unfold call_vector_service. by rewrite Hcfg. }
      by rewrite (process_row_Raise _ _ _ _ _ _ _ _ _ _ _ Hrun). }
    repeat split; [exact Hrow|by left|]. intros rest.
    cbn [process_rows]. by erewrite bind_Ok; [|exact Hrow].
  - exists [EvLog ERROR LogConfigIncomplete], "向量服务内部配置缺失".
    pose proof (process_row_unconfigured cur params full total idx
                  (TableRow record_id PNone) counts st Hcfg) as Hrow.
    repeat split; [exact Hrow|by right|]. intros rest.
    cbn [process_rows]. by erewrite bind_Ok; [|exact Hrow].
Qed.

(** ** The shape of the response *)

(** C8, as the code has it.  For an HTTP-successful JSON response, a body
    with a [data] array whose first element has a non-empty array
    [embedding] makes the call return that array.  Every other body makes
    the call fail, and the failure the caller sees is the [RuntimeError] of
    line 89: the [ValueError] of lines 72 and 77 (data or embedding missing,
    empty or not an array) and the attribute error of a body or first
    element that is no object are raised inside the [try] block and
    re-raised by its catch-all clause, with their text after the prefix of
    line 89. *)
Theorem response_shape_decides_outcome s st resp w1 result :
  config_complete = true ->
  requests_post (of_env (VECTOR_SERVICE_URL cfg)) (VECTOR_HEADERS cfg)
                (payload_of s) 60 (st_world st) = (Ok resp, w1) ->
  raise_for_status resp = Ok tt ->
  json resp = Ok result ->
  call_vector_service (PStr s) st =
  (fst (shape_outcome result), State w1 (st_conn st),
   posted s ++ snd (shape_outcome result)).
Proof. apply response_run. Qed.

(** * Further properties of the embedding client *)

Lemma exchange_failure_run s st e w1 :
  config_complete = true ->
  exchange_raises s (st_world st) e w1 ->
  call_vector_service (PStr s) st =
  if is_RequestException e then
    (Raise (Exc ConnectionError (transport_message e) None),
     State w1 (st_conn st),
     posted s ++ [EvLog ERROR (LogCallFailed (transport_message e))])
  else
    (Raise (wrapped (exc_str e)), State w1 (st_conn st),
     posted s ++ [EvLog ERROR (LogGenerationError (exc_str e))]).
Proof.
  intros Hcfg Hraise. unfold call_vector_service.
  rewrite Hcfg. cbn [negb]. unfold try_except, posted, transport_message.
  exec.
  destruct Hraise as [Hpost|(resp & Hpost & [Hstatus|[Hstatus Hjson]])];
    rewrite Hpost; exec; rewrite ?Hstatus; exec; rewrite ?Hjson; exec;
    by destruct (is_RequestException e); exec.
Qed.

(** Every run of the client on a string, with a complete configuration, is
    a failed exchange or a decoded body. *)
Lemma exchange_cases s (w : W) :
  exists w1,
    (exists e, exchange_raises s w e w1) \/
    (exists resp result,
       requests_post (of_env (VECTOR_SERVICE_URL cfg)) (VECTOR_HEADERS cfg)
                     (payload_of s) 60 w = (Ok resp, w1) /\
       raise_for_status resp = Ok tt /\ json resp = Ok result).
Proof.
  unfold exchange_raises.
  destruct (requests_post _ _ _ _ w) as [[resp|e] w1] eqn:Hpost.
  - exists w1. destruct (raise_for_status resp) as [[]|e] eqn:Hstatus.
    + destruct (json resp) as [result|e] eqn:Hjson.
      * right. by exists resp, result.
      * left. exists e. right. exists resp. auto.
    + left. exists e. right. exists resp. auto.
  - exists w1. left. exists e. by left.
Qed.

(** [s[:n]] is a prefix of [s] that holds [n] characters, or all of them,
    and it ends where a character ends. *)
Lemma slice_to_prefix s : forall n,
  exists rest,
    s = slice_to n s +:+ rest /\
    char_length (slice_to n s) = Nat.min n (char_length s) /\
    (rest = EmptyString \/
     exists c r, rest = String c r /\ is_continuation c = false).
Proof.
  induction s as [|c s IH]; intros n; cbn [slice_to char_length].
  { exists EmptyString. repeat split; [by destruct n|by left]. }
  destruct (is_continuation c) eqn:Hc.
  - destruct (IH n) as (rest & Hs & Hlen & Hrest). exists rest.
    cbn [char_length]. rewrite Hc. repeat split; [|done..].
    change (String c s = String c (slice_to n s +:+ rest)).
    by rewrite <- Hs.
  - destruct n as [|n].
    + exists (String c s). repeat split. right. by exists c, s.
    + destruct (IH n) as (rest & Hs & Hlen & Hrest). exists rest.
      cbn [char_length]. rewrite Hc, Hlen. repeat split; [|done..].
      change (String c s = String c (slice_to n s +:+ rest)).
      by rewrite <- Hs.
Qed.

Lemma append_empty_r s : s +:+ EmptyString = s.
Proof.
  induction s as [|c s IH]; [done|].
  change (String c (s +:+ EmptyString) = String c s). by rewrite IH.
Qed.

Lemma config_complete_false :
  config_complete = false <->
  unset_or_empty (VECTOR_SERVICE_URL cfg) \/
  unset_or_empty (VECTOR_MODEL cfg) \/ unset_or_empty (VECTOR_USER cfg).
Proof.
  unfold config_complete, unset_or_empty.
  destruct (VECTOR_SERVICE_URL cfg) as [[|c1 u]|],
           (VECTOR_MODEL cfg) as [[|c2 m]|],
           (VECTOR_USER cfg) as [[|c3 a]|]; cbn;
    split; intros H; try done; try (by auto); try (by eauto 6);
    destruct H as [[H|H]|[[H|H]|[H|H]]]; done.
Qed.

(** Every call of the client, case by case. *)
Lemma call_vector_service_cases text st :
  (config_complete = false /\
   call_vector_service text st =
   (Raise (Exc ValueError "向量服务内部配置缺失" None), st,
    [EvLog ERROR LogConfigIncomplete]))
  \/
  (config_complete = true /\ is_str text = false /\
   call_vector_service text st = (Raise (no_attribute text "strip"), st, []))
  \/
  (exists s w1 e,
     config_complete = true /\ text = PStr s /\
     call_vector_service text st =
     if is_RequestException e then
       (Raise (Exc ConnectionError (transport_message e) None),
        State w1 (st_conn st),
        posted s ++ [EvLog ERROR (LogCallFailed (transport_message e))])
     else
       (Raise (wrapped (exc_str e)), State w1 (st_conn st),
        posted s ++ [EvLog ERROR (LogGenerationError (exc_str e))]))
  \/
  (exists s w1 result,
     config_complete = true /\ text = PStr s /\
     call_vector_service text st =
     (fst (shape_outcome result), State w1 (st_conn st),
      posted s ++ snd (shape_outcome result))).
Proof.
  destruct config_complete eqn:Hcfg.
  2:{ left. split; [done|]. by apply config_incomplete_run. }
  right. destruct (is_str text) eqn:Hstr.
  2:{ left. repeat split. unfold call_vector_service. rewrite Hcfg.
      by destruct text. }
  right. destruct text as [| | | |s| |]; try done.
  destruct (exchange_cases s (st_world st))
    as [w1 [[e He]|(resp & result & Hpost & Hstatus & Hjson)]].
  - left. exists s, w1, e. repeat split. by apply exchange_failure_run.
  - right. exists s, w1, result. repeat split. by eapply response_run.
Qed.

Lemma usable_is_nonempty_list result embedding :
  spec_response_shape result = Usable embedding ->
  exists x l, embedding = PList (x :: l).
Proof.
  unfold spec_response_shape. repeat case_match; intros [= <-]; eauto.
Qed.

(** X1.  An embedding the client returns is a non-empty list, and it is
    returned only with a complete configuration, for a text that is a
    string. *)
Theorem returned_embedding_is_nonempty_list text st :
  match call_vector_service text st with
  | (Ok embedding, _, _) =>
      (exists x l, embedding = PList (x :: l)) /\
      config_complete = true /\ is_str text = true
  | (Raise _, _, _) => True
  end.
Proof.
  destruct (call_vector_service_cases text st)
    as [[_ ->]|[(_ & _ & ->)|[(s & w1 & e & Hcfg & -> & ->)
       |(s & w1 & result & Hcfg & -> & ->)]]]; try done.
  - by destruct (is_RequestException e).
  - unfold shape_outcome.
    destruct (spec_response_shape result) as [emb| | |v] eqn:Hshape;
      cbn; [|done..].
    split; [by eapply usable_is_nonempty_list|done].
Qed.

(** X2.  The exception that leaves the client is the [ValueError] of line
    51 when the configuration is incomplete, the attribute error of
    [text.strip()] when the configuration is complete and the text is not a
    string (no event is emitted then), and otherwise the [ConnectionError]
    of line 86 or the [RuntimeError] of line 89: no exception of requests
    and no [ValueError] of the response checks leaves the function. *)
Theorem client_exception_classes text st :
  match call_vector_service text st with
  | (Raise e, _, tr) =>
      (config_complete = false /\
       e = Exc ValueError "向量服务内部配置缺失" None)
      \/
      (config_complete = true /\ is_str text = false /\
       e = no_attribute text "strip" /\ tr = [])
      \/
      (config_complete = true /\ is_str text = true /\
       (exc_cls e = ConnectionError \/ exc_cls e = RuntimeError))
  | (Ok _, _, _) => True
  end.
Proof.
  destruct (call_vector_service_cases text st)
    as [[Hcfg ->]|[(Hcfg & Hstr & ->)|[(s & w1 & e & Hcfg & -> & ->)
       |(s & w1 & result & Hcfg & -> & ->)]]].
  - by left.
  - right. by left.
  - destruct (is_RequestException e); right; right;
      repeat split; auto.
  - unfold shape_outcome.
    destruct (spec_response_shape result); cbn; [done|..];
      right; right; repeat split; auto.
Qed.

(** X3.  A call raises a [ValueError] exactly when the service URL, the
    model or the account is unset or set to the empty string. *)
Theorem configuration_error_iff text st :
  (exists e st' tr,
     call_vector_service text st = (Raise e, st', tr) /\
     exc_cls e = ValueError)
  <->
  unset_or_empty (VECTOR_SERVICE_URL cfg) \/
  unset_or_empty (VECTOR_MODEL cfg) \/ unset_or_empty (VECTOR_USER cfg).
Proof.
  rewrite <- config_complete_false. split.
  - intros (e & st' & tr & Hrun & Hcls).
    destruct (call_vector_service_cases text st)
      as [[Hcfg _]|[(_ & _ & Heq)|[(s & w1 & e' & _ & _ & Heq)
         |(s & w1 & result & _ & _ & Heq)]]]; [done|..];
      rewrite Heq in Hrun.
    + by simplify_eq/=.
    + by destruct (is_RequestException e'); simplify_eq/=.
    + unfold shape_outcome, wrapped in Hrun.
      by destruct (spec_response_shape result); simplify_eq/=.
  - intros Hcfg. eexists _, _, _. split; [by apply config_incomplete_run|done].
Qed.

Lemma call_vector_service_posts text st :
  List.filter is_post (snd (call_vector_service text st)) =
  match text with
  | PStr s =>
      if config_complete
      then [EvPost (of_env (VECTOR_SERVICE_URL cfg)) (VECTOR_HEADERS cfg)
                   (payload_of s) 60]
      else []
  | _ => []
  end.
Proof.
  destruct (call_vector_service_cases text st)
    as [[Hcfg ->]|[(Hcfg & Hstr & ->)|[(s & w1 & e & Hcfg & -> & ->)
       |(s & w1 & result & Hcfg & -> & ->)]]]; rewrite ?Hcfg.
  - by destruct text.
  - by destruct text.
  - by destruct (is_RequestException e).
  - unfold shape_outcome. by repeat case_match.
Qed.

(** X4.  A call posts one request, with the stripped text as the only
    input, the configured model and account and a timeout of 60 seconds,
    when the configuration is complete and the text is a string; otherwise
    it posts none.  No request is repeated. *)
Theorem one_request_per_call text st :
  List.filter is_post (snd (call_vector_service text st)) =
  match text with
  | PStr s =>
      if config_complete
      then [EvPost (of_env (VECTOR_SERVICE_URL cfg)) (VECTOR_HEADERS cfg)
                   (payload_of s) 60]
      else []
  | _ => []
  end.
Proof. apply call_vector_service_posts. Qed.

(** X5.  When the HTTP exchange fails with an exception of requests (the
    request, the status check or the decoding of the body), the client logs
    and raises a [ConnectionError] whose message is the text of that
    exception, followed, when the exception carries a response, by the
    first 200 characters of its body and no more: the excerpt is a prefix
    of the body, holds 200 characters or the whole body, and ends at the
    end of a character. *)
Theorem transport_failure_is_connection_error s st e w1 :
  config_complete = true ->
  exchange_raises s (st_world st) e w1 ->
  is_RequestException e = true ->
  call_vector_service (PStr s) st =
    (Raise (Exc ConnectionError (transport_message e) None),
     State w1 (st_conn st),
     posted s ++ [EvLog ERROR (LogCallFailed (transport_message e))]) /\
  match exc_response e with
  | Some body =>
      exists excerpt rest,
        transport_message e =
          "向量服务调用失败：" +:+ exc_str e +:+ "，响应内容：" +:+ excerpt /\
        body = excerpt +:+ rest /\
        char_length excerpt = Nat.min 200 (char_length body) /\
        (rest = EmptyString \/
         exists c r, rest = String c r /\ is_continuation c = false)
  | None => transport_message e = "向量服务调用失败：" +:+ exc_str e
  end.
Proof.
  intros Hcfg Hraise Hreq. split.
  - rewrite (exchange_failure_run s st e w1 Hcfg Hraise). by rewrite Hreq.
  - unfold transport_message. destruct (exc_response e) as [body|].
    + destruct (slice_to_prefix body 200) as (rest & Hbody & Hlen & Hrest).
      by exists (slice_to 200 body), rest.
    + by rewrite append_empty_r.
Qed.

(** X6.  When the HTTP exchange fails with any other exception, the client
    logs it and raises the [RuntimeError] of line 89 with the text of that
    exception after its prefix. *)
Theorem other_failure_is_runtime_error s st e w1 :
  config_complete = true ->
  exchange_raises s (st_world st) e w1 ->
  is_RequestException e = false ->
  call_vector_service (PStr s) st =
    (Raise (Exc RuntimeError ("向量生成失败：" +:+ exc_str e) None),
     State w1 (st_conn st),
     posted s ++ [EvLog ERROR (LogGenerationError (exc_str e))]).
Proof.
  intros Hcfg Hraise Hreq.
  rewrite (exchange_failure_run s st e w1 Hcfg Hraise). by rewrite Hreq.
Qed.

(** * Further properties of the processing loop *)

Lemma omap_none {A} (f : event -> option A) (P : event -> Prop) l :
  (forall ev, P ev -> f ev = None) -> Forall P l -> omap f l = [].
Proof.
  intros HP. induction 1 as [|ev l Hev _ IH]; [done|].
  cbn. by rewrite (HP ev Hev).
Qed.

Lemma service_event_silent ev :
  service_event ev ->
  failed_row ev = None /\ updated_id ev = None /\ progress_of ev = None.
Proof. by destruct ev as [| | |? []| | | | | | |? []]. Qed.

(** The [try] block on one row: the call of the client, then the update,
    then the progress line. *)
Lemma update_row_run cur params full total idx row counts st :
  exists r0 stc tc,
    call_vector_service (row_text row) st = (r0, stc, tc) /\
    match r0 with
    | Raise e =>
        update_row cur params full total idx row counts st = (Raise e, stc, tc)
    | Ok embedding =>
        let s := UpdateVector full (vector_field_name params) embedding
                              (row_id row) in
        match cur_execute cur s (st_world stc) with
        | (Raise e, w2) =>
            update_row cur params full total idx row counts st =
            (Raise e, State w2 (st_conn stc), tc ++ [EvExecute cur s])
        | (Ok _, w2) =>
            update_row cur params full total idx row counts st =
            (Ok (S (fst counts), snd counts), State w2 (st_conn stc),
             tc ++ EvExecute cur s ::
               (if Nat.eqb (idx mod 10) 0
                then [EvLog INFO (LogProgress idx total)] else []))
        end
    end.
Proof.
  destruct (call_vector_service (row_text row) st) as [[r0 stc] tc] eqn:Hcall.
  exists r0, stc, tc. split; [done|]. unfold update_row.
  destruct r0 as [emb|e]; [|by erewrite bind_Raise].
  erewrite bind_Ok; [|exact Hcall]. exec.
  destruct (cur_execute _ _ _) as [[[]|e] w2]; exec; [|done].
  by destruct (Nat.eqb (idx mod 10) 0); exec.
Qed.

(** What one row leaves in the events and in the counters. *)
Lemma process_row_summary cur params full total idx row counts st :
  exists c st' tr,
    process_row cur params full total idx row counts st = (Ok c, st', tr) /\
    length (List.filter is_post tr) <= 1 /\
    ((c = (S (fst counts), snd counts) /\
      omap failed_row tr = [] /\
      omap updated_id tr = [row_id row] /\
      omap progress_of tr =
        (if Nat.eqb (idx mod 10) 0 then [(idx, total)] else []))
     \/
     (c = (fst counts, S (snd counts)) /\
      omap failed_row tr = [(idx, row_id row)] /\
      (omap updated_id tr = [] \/ omap updated_id tr = [row_id row]) /\
      omap progress_of tr = [])).
Proof.
  destruct (update_row_run cur params full total idx row counts st)
    as (r0 & stc & tc & Hcall & Hrun).
  pose proof (emits_run _ _ _ _ _ _
                (call_vector_service_emits (row_text row)) Hcall) as [Hev _].
  pose proof (call_vector_service_posts (row_text row) st) as Hposts.
  rewrite Hcall in Hposts. cbn [snd] in Hposts.
  assert (length (List.filter is_post tc) <= 1) as Hle.
  { rewrite Hposts. by repeat case_match; cbn; lia. }
  assert (omap failed_row tc = [] /\ omap updated_id tc = [] /\
          omap progress_of tc = []) as (Hf & Hu & Hp).
  { repeat split; (eapply omap_none; [|exact Hev]); intros ev H;
      apply (service_event_silent ev H). }
  destruct r0 as [emb|e].
  - cbn zeta in Hrun. destruct (cur_execute _ _ _) as [[[]|e] w2].
    + eexists _, _, _. split; [by eapply process_row_Ok|].
      rewrite List.filter_app, !omap_app, Hf, Hu, Hp, length_app.
      split; [by destruct (Nat.eqb (idx mod 10) 0); cbn; lia|].
      left. by destruct (Nat.eqb (idx mod 10) 0).
    + eexists _, _, _. split; [by eapply process_row_Raise|].
      rewrite !List.filter_app, !omap_app, Hf, Hu, Hp, !length_app.
      split; [cbn; lia|]. right. cbn. auto.
  - eexists _, _, _. split; [by eapply process_row_Raise|].
    rewrite !List.filter_app, !omap_app, Hf, Hu, Hp, !length_app.
    split; [cbn; lia|]. right. cbn. auto.
Qed.

(** The positions of [enumerate(rows, idx)] that are multiples of ten,
    each with the total. *)
Lemma process_rows_summary cur params full total rows : forall idx counts st,
  exists c st' tr,
    process_rows cur params full total idx rows counts st = (Ok c, st', tr) /\
    length (List.filter is_post tr) <= length rows /\
    snd c = snd counts + length (omap failed_row tr) /\
    omap failed_row tr `sublist_of`
      imap (fun i row => (idx + i, row_id row)) rows /\
    omap updated_id tr `sublist_of` (row_id <$> rows) /\
    fst c <= fst counts + length (omap updated_id tr) /\
    omap progress_of tr `sublist_of`
      ((fun i => (i, total)) <$>
       List.filter (fun i => Nat.eqb (i mod 10) 0) (seq idx (length rows))) /\
    fst counts + length (omap progress_of tr) <= fst c.
Proof.
  induction rows as [|row rest IH]; intros idx counts st.
  { exists counts, st, []. cbn. repeat split; try done; lia. }
  destruct (process_row_summary cur params full total idx row counts st)
    as (c1 & st1 & t1 & Hrow & Hposts1 & Hcase).
  destruct (IH (S idx) c1 st1)
    as (c2 & st2 & t2 & Hrest & Hposts2 & Hfail & Hfailed & Hupd & Hsucc
        & Hprog & Hprogn).
  exists c2, st2, (t1 ++ t2). cbn [process_rows].
  erewrite bind_Ok; [|exact Hrow]. rewrite Hrest.
  split; [done|].
  rewrite List.filter_app, !omap_app, !length_app.
  cbn [length imap fmap list_fmap seq List.filter].
  rewrite Nat.add_0_r.
  rewrite (imap_ext _ (fun i row => (S idx + i, row_id row)) rest)
    by (intros i x _; cbn; f_equal; lia).
  destruct Hcase as [(-> & Hf1 & Hu1 & Hp1)|(-> & Hf1 & Hu & Hp1)];
    rewrite Hf1, Hp1, ?Hu1; cbn [fst snd app length] in *.
  - repeat split; try lia.
    + by apply sublist_cons.
    + by apply sublist_skip.
    + destruct (Nat.eqb (idx mod 10) 0); cbn [app fmap list_fmap];
        [by apply sublist_skip|done].
    + destruct (Nat.eqb (idx mod 10) 0); cbn [length]; lia.
  - repeat split; try lia.
    + by apply sublist_skip.
    + destruct Hu as [-> | ->]; cbn [app];
        [by apply sublist_cons|by apply sublist_skip].
    + destruct (Nat.eqb (idx mod 10) 0); cbn [fmap list_fmap];
        [by apply sublist_cons|done].
Qed.


(** X8.  The loop issues at most one update statement and at most one
    request per row; the identifiers the updates address are identifiers of
    fetched rows, in fetch order; and every counted success has issued its
    update. *)
Theorem updates_follow_fetch_order cur params full total idx rows counts st :
  exists c st' tr,
    process_rows cur params full total idx rows counts st = (Ok c, st', tr) /\
    omap updated_id tr `sublist_of` (row_id <$> rows) /\
    fst c <= fst counts + length (omap updated_id tr) /\
    length (List.filter is_post tr) <= length rows.
Proof.
  destruct (process_rows_summary cur params full total rows idx counts st)
    as (c & st' & tr & Hrun & Hposts & _ & _ & Hupd & Hsucc & _).
  by exists c, st', tr.
Qed.

(** X9.  Progress lines are logged only at positions that are multiples of
    ten, in order, each at most once and each with the total; a row that
    failed logs none, so there are no more of them than counted
    successes. *)
Theorem progress_lines_at_multiples_of_ten
    cur params full total idx rows counts st :
  exists c st' tr,
    process_rows cur params full total idx rows counts st = (Ok c, st', tr) /\
    omap progress_of tr `sublist_of`
      ((fun i => (i, total)) <$>
       List.filter (fun i => Nat.eqb (i mod 10) 0) (seq idx (length rows))) /\
    fst counts + length (omap progress_of tr) <= fst c.
Proof.
  destruct (process_rows_summary cur params full total rows idx counts st)
    as (c & st' & tr & Hrun & _ & _ & _ & _ & _ & Hprog & Hprogn).
  by exists c, st', tr.
Qed.

Lemma loop_event_no_rollback cur params full ev :
  loop_event cur params full ev ->
  is_rollback ev = false /\ is_job_exception ev = false.
Proof. by destruct ev as [| | |? []| | | | | | |? []]. Qed.

(** X10.  Whatever the rows, the client and the statements do, the loop
    emits no commit, no rollback and no close, also after a row that
    failed, and it leaves the variable [conn] as it was. *)
Theorem loop_leaves_transaction_open cur params full total idx rows counts st :
  match process_rows cur params full total idx rows counts st with
  | (_, st', tr) =>
      List.filter is_commit tr = [] /\ List.filter is_rollback tr = [] /\
      List.filter is_close tr = [] /\ st_conn st' = st_conn st
  end.
Proof.
  destruct (process_rows cur params full total idx rows counts st)
    as [[r st'] tr] eqn:Hrun.
  eapply emits_run in Hrun as [Hev Hconn]; [|apply process_rows_emits].
  repeat split; try done; (eapply filter_none; [|exact Hev]); intros ev H.
  - apply (loop_event_quiet _ _ _ ev H).
  - apply (loop_event_no_rollback _ _ _ ev H).
  - apply (loop_event_quiet _ _ _ ev H).
Qed.



(** * Further properties of the job *)

Lemma refresh_handler_eq e st :
  refresh_handler e st =
  if is_psycopg2_Error e then
    match st_conn st with
    | Some c =>
        match conn_rollback c (st_world st) with
        | (Ok _, w1) =>
            (Ok tt, State w1 (Some c),
             [EvRollback c; EvLog ERROR (LogDatabaseFailed (exc_str e))])
        | (Raise e', w1) => (Raise e', State w1 (Some c), [EvRollback c])
        end
    | None => (Ok tt, st, [EvLog ERROR (LogDatabaseFailed (exc_str e))])
    end
  else (Ok tt, st, [EvLog ERROR (LogJobException (exc_str e))]).
Proof.
  unfold refresh_handler. destruct (is_psycopg2_Error e); [|done].
  exec. destruct st as [w [c|]]; exec; [|done].
  by destruct (conn_rollback _ _) as [[[]|e'] w1]; exec.
Qed.

Lemma refresh_finally_eq st :
  refresh_finally st =
  match st_conn st with
  | Some c =>
      match conn_close c (st_world st) with
      | (Ok _, w1) =>
          (Ok tt, State w1 (Some c),
           [EvClose c; EvLog INFO LogConnectionClosed])
      | (Raise e, w1) => (Raise e, State w1 (Some c), [EvClose c])
      end
  | None => (Ok tt, st, [])
  end.
Proof.
  unfold refresh_finally. exec. destruct st as [w [c|]]; exec; [|done].
  by destruct (conn_close _ _) as [[[]|e] w1]; exec.
Qed.

Lemma run_job_unfold params w :
  run_job params w =
  match refresh_body params (State w None) with
  | (Ok a, stb, tb) =>
      match refresh_finally stb with
      | (Ok _, st, tf) => (Ok a, st, tb ++ tf)
      | (Raise e, st, tf) => (Raise e, st, tb ++ tf)
      end
  | (Raise e, stb, tb) =>
      match refresh_handler e stb with
      | (rh, sth, th) =>
          match refresh_finally sth with
          | (Ok _, st, tf) => (rh, st, (tb ++ th) ++ tf)
          | (Raise e', st, tf) => (Raise e', st, (tb ++ th) ++ tf)
          end
      end
  end.
Proof.
  unfold run_job, batch_refresh_embeddings. exec.
  unfold try_finally, try_except.
  destruct (refresh_body params (State w None)) as [[[[]|e] stb] tb].
  - by destruct (refresh_finally stb) as [[[[]|e] st] tf].
  - destruct (refresh_handler e stb) as [[rh sth] th].
    by destruct (refresh_finally sth) as [[[[]|e'] st] tf].
Qed.

(** X11.  If the driver's [rollback] and [close] do not raise, the job
    returns normally whatever else fails: the connection, a query, the
    embedding service or the commit. *)
Theorem job_swallows_failures params w :
  (forall c w', fst (conn_rollback c w') = Ok tt) ->
  (forall c w', fst (conn_close c w') = Ok tt) ->
  fst (fst (run_job params w)) = Ok tt.
Proof.
  intros Hrollback Hclose. rewrite run_job_unfold.
  assert (forall st, exists st' tf, refresh_finally st = (Ok tt, st', tf))
    as Hfin.
  { intros st. rewrite refresh_finally_eq. destruct (st_conn st) as [c|];
      [|by eauto].
    specialize (Hclose c (st_world st)).
    destruct (conn_close c (st_world st)) as [[[]|e] w1]; [by eauto|done]. }
  destruct (refresh_body params (State w None)) as [[[[]|e] stb] tb].
  - by destruct (Hfin stb) as (st' & tf & ->).
  - assert (exists sth th, refresh_handler e stb = (Ok tt, sth, th))
      as (sth & th & ->).
    { rewrite refresh_handler_eq. destruct (is_psycopg2_Error e); [|by eauto].
      destruct (st_conn stb) as [c|]; [|by eauto].
      specialize (Hrollback c (st_world stb)).
      destruct (conn_rollback c (st_world stb)) as [[[]|e'] w1];
        [by eauto|done]. }
    by destruct (Hfin sth) as (st' & tf & ->).
Qed.

(** X12.  When [psycopg2.connect] raises, the job logs the failure and
    returns: nothing is registered, queried, rolled back or closed, and the
    variable [conn] stays unset. *)
Theorem connection_failure_ends_the_job params w e w1 :
  psycopg2_connect params w = (Raise e, w1) ->
  run_job params w =
  (Ok tt, State w1 None,
   [EvLog INFO (LogConnecting (db_ip params) (db_port params)
                              (db_name params));
    EvConnect params;
    EvLog ERROR (if is_psycopg2_Error e
                 then LogDatabaseFailed (exc_str e)
                 else LogJobException (exc_str e))]).
Proof.
  intros Hconnect. rewrite run_job_unfold.
  assert (refresh_body params (State w None) =
          (Raise e, State w1 None,
           [EvLog INFO (LogConnecting (db_ip params) (db_port params)
                                      (db_name params));
            EvConnect params])) as ->.
  { unfold refresh_body. exec. by rewrite Hconnect. }
  rewrite refresh_handler_eq. cbn [st_conn].
  by destruct (is_psycopg2_Error e); rewrite refresh_finally_eq.
Qed.

Lemma setup_event_no_rollback ev :
  setup_event ev -> is_rollback ev = false /\ is_job_exception ev = false.
Proof. by destruct ev as [| | |? []| | | | | | |? []]. Qed.



(** The events of the [try] block contain no rollback, no close and no
    line of the generic handler; when the block raises they contain no
    tally. *)
Lemma body_trace_quiet params conn r tb :
  body_trace params conn r tb ->
  List.filter is_rollback tb = [] /\ List.filter is_job_exception tb = [] /\
  List.filter is_close tb = [] /\
  (forall e, r = Raise e -> List.filter is_tally tb = []).
Proof.
  assert (forall l, Forall setup_event l ->
            List.filter is_rollback l = [] /\
            List.filter is_job_exception l = [] /\
            List.filter is_close l = [] /\ List.filter is_tally l = [])
    as Hsetup.
  { intros l Hl. repeat split; (eapply filter_none; [|exact Hl]);
      intros ev H; first [apply (setup_event_no_rollback ev H)
                         |apply (setup_event_quiet ev H)]. }
  assert (forall cur full l, Forall (loop_event cur params full) l ->
            List.filter is_rollback l = [] /\
            List.filter is_job_exception l = [] /\
            List.filter is_close l = [] /\ List.filter is_tally l = [])
    as Hloop.
  { intros cur full l Hl. repeat split; (eapply filter_none; [|exact Hl]);
      intros ev H; first [apply (loop_event_no_rollback _ _ _ ev H)
                         |apply (loop_event_quiet _ _ _ ev H)]. }
  intros [Hev|(c & cur & row & pre & tt' & _ & -> & Hpre & Hrun)].
  { destruct (Hsetup tb Hev) as (? & ? & ? & ?). by repeat split. }
  destruct (Hsetup pre Hpre) as (Hp1 & Hp2 & Hp3 & Hp4).
  rewrite !List.filter_app, Hp1, Hp2, Hp3, Hp4.
  destruct Hrun
    as [e|e| |rows s f st st' tl e _ Hl|rows s f st st' tl _ Hl];
    try (by repeat split);
    apply loop_facts in Hl as [Hev _];
    destruct (Hloop _ _ tl Hev) as (Hl1 & Hl2 & Hl3 & Hl4);
    cbn [app List.filter is_rollback is_job_exception is_close is_tally];
    rewrite !List.filter_app, Hl1, Hl2, Hl3, Hl4; by repeat split.
Qed.

(** X13.  The job rolls back exactly when its [try] block (lines 97-180)
    raised a database error while a connection was open.  The rollback then
    comes right after the events of the [try] block, on the job's
    connection, and is followed only by the log line of the failure (unless
    the rollback itself raised) and by the close with its log line (unless
    the close raised).  The [try] block of such a job rolled back nothing,
    closed nothing and logged no tally.  In every other job nothing is
    rolled back. *)
Theorem rollback_only_after_database_error params w :
  match refresh_body params (State w None) with
  | (Raise e, _, tb) =>
      match opened params w with
      | Some c =>
          if is_psycopg2_Error e then
            exists after,
              job_trace params w = tb ++ EvRollback c :: after /\
              List.filter is_rollback tb = [] /\
              List.filter is_close tb = [] /\
              List.filter is_tally tb = [] /\
              (after = [EvLog ERROR (LogDatabaseFailed (exc_str e));
                        EvClose c; EvLog INFO LogConnectionClosed] \/
               after = [EvLog ERROR (LogDatabaseFailed (exc_str e));
                        EvClose c] \/
               after = [EvClose c; EvLog INFO LogConnectionClosed] \/
               after = [EvClose c])
          else List.filter is_rollback (job_trace params w) = []
      | None => List.filter is_rollback (job_trace params w) = []
      end
  | (Ok _, _, _) => List.filter is_rollback (job_trace params w) = []
  end.
Proof.
  unfold job_trace. rewrite run_job_unfold.
  destruct (refresh_body params (State w None)) as [[rb stb] tb] eqn:Hbody.
  apply refresh_body_run in Hbody as [Hbody Hopen].
  apply body_trace_quiet in Hbody as (Hb1 & Hb2 & Hb3 & Hb4).
  destruct rb as [[]|e].
  { rewrite refresh_finally_eq.
    destruct (st_conn stb) as [c|];
      [destruct (conn_close _ _) as [[[]|e] w1]|];
      cbn [snd]; by rewrite List.filter_app, Hb1. }
  specialize (Hb4 e eq_refl). rewrite refresh_handler_eq, <- Hopen.
  destruct (st_conn stb) as [c|] eqn:Hc.
  2:{ destruct (is_psycopg2_Error e); rewrite refresh_finally_eq;
        cbn [st_conn]; rewrite ?Hc; cbn [snd];
        by rewrite !List.filter_app, Hb1. }
  destruct (is_psycopg2_Error e).
  2:{ rewrite refresh_finally_eq, Hc.
      destruct (conn_close _ _) as [[[]|e'] w1];
        cbn [snd]; by rewrite !List.filter_app, Hb1. }
  destruct (conn_rollback _ _) as [[[]|e'] w1];
    rewrite refresh_finally_eq; cbn [st_conn st_world];
    destruct (conn_close _ _) as [[[]|e''] w2]; cbn [snd];
    eexists; (split; [by rewrite <- !app_assoc|]);
    repeat split; auto.
Qed.


Lemma loop_event_no_match cur params full ev :
  loop_event cur params full ev -> is_no_match ev = false.
Proof. by destruct ev as [| | |? []| | | | | | |? []]. Qed.

Lemma table_run_no_match c cur params full r tt' :
  table_run c cur params full r tt' -> List.filter is_no_match tt' = [].
Proof.
  destruct 1 as [e|e| |rows s f st st' tl e _ Hl|rows s f st st' tl _ Hl];
    try done;
    apply loop_facts in Hl as [Hev _];
    cbn [app List.filter is_no_match];
    rewrite List.filter_app,
      (filter_none is_no_match _ tl (loop_event_no_match cur params full) Hev);
    done.
Qed.

Lemma report_tables_trace cur params st :
  exists rest,
    snd (report_tables cur params st) =
      EvLog ERROR (LogNoMatchingTable (table_name params)) :: rest /\
    List.filter is_no_match rest = [] /\ Forall setup_event rest.
Proof.
  unfold report_tables. exec.
  destruct (cur_execute _ _ _) as [[[]|e] w1]; exec;
    [|eexists; by repeat split; repeat constructor].
  destruct (cur_fetchall_tables _ _) as [[[|t l]|e] w2]; exec;
    eexists; by repeat split; repeat constructor.
Qed.

(** The [try] block logs the error of line 119 at most once, and when it
    does, it emits set-up events only. *)
Lemma refresh_body_exclusive params w :
  List.filter is_no_match (snd (refresh_body params (State w None))) = [] \/
  (List.filter is_no_match (snd (refresh_body params (State w None))) =
     [EvLog ERROR (LogNoMatchingTable (table_name params))] /\
   Forall setup_event (snd (refresh_body params (State w None)))).
Proof.
  unfold refresh_body. exec.
  destruct (psycopg2_connect params w) as [[c|e] w1]; exec; [|by left].
  unfold refresh_connected. exec.
  destruct (register_vector _ _) as [[[]|e] w2]; exec; [|by left].
  destruct (conn_cursor _ _) as [[cur|e] w3]; exec; [|by left].
  destruct (cur_execute _ _ _) as [[[]|e] w4]; exec; [|by left].
  destruct (cur_fetchone _ _) as [[[row|]|e] w5]; exec; [| |by left].
  - destruct (refresh_table c cur params row (State w5 (Some c)))
      as [[r1 st1] t1] eqn:Hrun.
    apply refresh_table_run in Hrun as [Hrun _].
    left. cbn. by apply table_run_no_match in Hrun.
  - destruct (report_tables_trace cur params (State w5 (Some c)))
      as (rest & Htrace & Hnone & Hsetup).
    destruct (report_tables cur params (State w5 (Some c)))
      as [[r1 st1] t1].
    cbn [snd] in Htrace. subst t1. right. cbn.
    rewrite Hnone. split; [done|]. by repeat constructor.
Qed.

(** X15.  The two branches of the job exclude each other, whatever the
    driver does: the error that no table matches is logged at most once,
    and a job that logs it issues no row query, no update, no commit and no
    request to the embedding service. *)
Theorem no_match_excludes_row_work params w :
  List.filter is_no_match (job_trace params w) = [] \/
  (List.filter is_no_match (job_trace params w) =
     [EvLog ERROR (LogNoMatchingTable (table_name params))] /\
   List.filter is_row_work (job_trace params w) = []).
Proof.
  assert (forall e st,
            List.filter is_no_match (snd (refresh_handler e st)) = [] /\
            List.filter is_row_work (snd (refresh_handler e st)) = [])
    as Hhandler.
  { intros e st. rewrite refresh_handler_eq.
    destruct (is_psycopg2_Error e); [|done].
    destruct (st_conn st) as [c|]; [|done].
    by destruct (conn_rollback _ _) as [[[]|e'] w1]. }
  assert (forall st,
            List.filter is_no_match (snd (refresh_finally st)) = [] /\
            List.filter is_row_work (snd (refresh_finally st)) = [])
    as Hfinally.
  { intros st. rewrite refresh_finally_eq.
    destruct (st_conn st) as [c|]; [|done].
    by destruct (conn_close _ _) as [[[]|e'] w1]. }
  assert (forall l, Forall setup_event l -> List.filter is_row_work l = [])
    as Hsetup.
  { intros l Hl. eapply filter_none; [|exact Hl].
    by intros [| | |? []| | | | | | |? []]. }
  unfold job_trace. rewrite run_job_unfold.
  pose proof (refresh_body_exclusive params w) as Hbody.
  destruct (refresh_body params (State w None)) as [[rb stb] tb].
  cbn [snd] in Hbody.
  destruct rb as [[]|e].
  - destruct (Hfinally stb) as [Hf1 Hf2].
    destruct (refresh_finally stb) as [[[[]|e] st] tf]; cbn [snd] in *;
      rewrite !List.filter_app, Hf1, Hf2, !app_nil_r;
      (destruct Hbody as [Hb|[Hb Hs]]; [by left|right]);
      by rewrite (Hsetup tb Hs).
  - destruct (Hhandler e stb) as [Hh1 Hh2].
    destruct (refresh_handler e stb) as [[rh sth] th].
    destruct (Hfinally sth) as [Hf1 Hf2].
    destruct (refresh_finally sth) as [[[[]|e'] st] tf]; cbn [snd] in *;
      rewrite !List.filter_app, Hh1, Hh2, Hf1, Hf2, !app_nil_r;
      (destruct Hbody as [Hb|[Hb Hs]]; [by left|right]);
      by rewrite (Hsetup tb Hs).
Qed.

End Program.

(** * The job against the in-memory database *)

Import Sim.

(** ** Names up to case *)

Lemma all_ascii_complete a : In a all_ascii.
Proof.
  unfold all_ascii. apply list_elem_of_In, list_elem_of_fmap.
  exists (nat_of_ascii a). split; [by rewrite ascii_nat_embedding|].
  apply list_elem_of_In, in_seq. pose proof (nat_ascii_bounded a). lia.
Qed.

Lemma same_letter_lower a b :
  same_letter a b = Ascii.eqb (lower_ascii a) (lower_ascii b).
Proof.
  assert (forallb (fun a => forallb (fun b =>
            Bool.eqb (same_letter a b)
                     (Ascii.eqb (lower_ascii a) (lower_ascii b)))
            all_ascii) all_ascii = true) as Hall by (vm_compute; reflexivity).
  rewrite forallb_forall in Hall.
  specialize (Hall a (all_ascii_complete a)).
  rewrite forallb_forall in Hall.
  specialize (Hall b (all_ascii_complete b)).
  by apply Bool.eqb_prop in Hall.
Qed.

Lemma eq_ignore_case_lower s1 : forall s2,
  eq_ignore_case s1 s2 = String.eqb (ascii_lower s1) (ascii_lower s2).
Proof.
  induction s1 as [|a r1 IH]; intros [|b r2]; cbn; try done.
  by rewrite same_letter_lower, IH.
Qed.

(** Under the collation C, two names have the same folding exactly when
    they are equal up to the case of their ASCII letters. *)
Lemma eq_ignore_case_spec s1 s2 :
  eq_ignore_case s1 s2 = true <-> ascii_lower s1 = ascii_lower s2.
Proof. rewrite eq_ignore_case_lower. apply String.eqb_eq. Qed.


(** ** The two catalogue queries *)

Lemma matching_tables_spec fold_column fold_param requested cat name :
  In (CatalogRow name)
     (matching_tables fold_column fold_param requested cat) <->
  exists t, In t cat /\ is_public_base_table t = true /\
            ti_name t = name /\ fold_column name = fold_param requested.
Proof.
  unfold matching_tables, base_tables.
  rewrite <- list_elem_of_In, list_elem_of_fmap. split.
  - intros (t & [= ->] & Hin). apply list_elem_of_In in Hin.
    apply filter_In in Hin as [Hin Hname]. apply filter_In in Hin as [Hin Hbase].
    exists t. repeat split; try done. by apply String.eqb_eq.
  - intros (t & Hin & Hbase & <- & Hname). exists t. split; [done|].
    apply list_elem_of_In, filter_In. split; [by apply filter_In|].
    by apply String.eqb_eq.
Qed.


(** [', '.join(names)] puts the separator between the names and nowhere
    else. *)
Lemma join_concat sep names : join sep names = String.concat sep names.
Proof.
  induction names as [|x [|y rest] IH]; [done..|].
  change (x +:+ sep +:+ join sep (y :: rest) =
          x +:+ sep +:+ String.concat sep (y :: rest)).
  by rewrite IH.
Qed.

Lemma all_tables_names cat :
  row_table_name <$> all_tables cat ≡ₚ ti_name <$> base_tables cat.
Proof.
  unfold all_tables.
  assert (forall l : list string, row_table_name <$> (CatalogRow <$> l) = l)
    as -> by (induction l; cbn; congruence).
  apply merge_sort_Permutation.
Qed.

Lemma all_tables_nil cat : all_tables cat = [] <-> base_tables cat = [].
Proof.
  pose proof (all_tables_names cat) as Hperm. split; intros H.
  - rewrite H in Hperm. cbn in Hperm.
    apply Permutation_nil in Hperm. by apply fmap_nil_inv in Hperm.
  - rewrite H in Hperm. cbn in Hperm. symmetry in Hperm.
    apply Permutation_nil in Hperm. by apply fmap_nil_inv in Hperm.
Qed.


(** ** Runs of the job *)

(** Against the in-memory database every call of the driver computes. *)
Ltac sim_run :=
  repeat first
    [ rewrite bind_run
    | progress unfold logger, call, set_conn, get_conn, raise
    | progress cbn -[all_tables matching_tables relation refresh_table] ].

Section InMemory.
Variable cfg : config.

Lemma run_job_not_found params (w : world) :
  matching_tables (lower_column w) (lower_param w) (table_name params)
                  (catalog w) = [] ->
  exists st,
    run_job cfg params w =
    (Ok tt, st,
     resolving params ++
     [EvLog ERROR (LogNoMatchingTable (table_name params));
      EvExecute 2 SelectAllTables; EvFetchall 2;
      EvLog ERROR
        (match all_tables (catalog w) with
         | [] => LogNoTables (db_name params)
         | _ :: _ =>
             LogAllTables (db_name params)
               (join ", " (row_table_name <$> all_tables (catalog w)))
         end);
      EvClose 1; EvLog INFO LogConnectionClosed]).
Proof.
  intros Hnone.
  unfold run_job, batch_refresh_embeddings, try_finally, try_except,
    refresh_body, refresh_connected, report_tables, refresh_finally.
  sim_run. rewrite Hnone. sim_run.
  destruct (all_tables (catalog w)) as [|row rows]; sim_run; eauto.
Qed.




(** ** The embedding client and the loop against the in-memory service *)





(** ** Table resolution *)


(** ** No matching table *)

(** C6.  When the server's [lower] folds the name of no base table of the
    schema to what it folds the requested name to, the job ends normally
    after these events: the unsuccessful resolution, the second catalogue
    query, one log line with the listing, and the close of the connection.
    No update is executed.  The listing is a line of its own when the
    schema has no base table, and otherwise holds the names of the base
    tables of the schema, each once, with a comma and a space between two
    names. *)
Theorem missing_table_is_reported params (w : world) :
  (forall t, In t (catalog w) -> is_public_base_table t = true ->
             lower_column w (ti_name t) <> lower_param w (table_name params))
  ->
  exists st listing,
    run_job cfg params w =
    (Ok tt, st,
     resolving params ++
     [EvLog ERROR (LogNoMatchingTable (table_name params));
      EvExecute 2 SelectAllTables; EvFetchall 2;
      EvLog ERROR listing;
      EvClose 1; EvLog INFO LogConnectionClosed]) /\
    List.filter is_update (job_trace cfg params w) = [] /\
    ((base_tables (catalog w) = [] /\ listing = LogNoTables (db_name params))
     \/
     (base_tables (catalog w) <> [] /\
      exists names,
        names ≡ₚ ti_name <$> base_tables (catalog w) /\
        listing = LogAllTables (db_name params) (String.concat ", " names))).
Proof.
  intros Hnone.
  assert (matching_tables (lower_column w) (lower_param w)
            (table_name params) (catalog w) = []) as Hmatch.
  { destruct (matching_tables _ _ _ _) as [|[name] more] eqn:Hmatch; [done|].
    assert (In (CatalogRow name)
               (matching_tables (lower_column w) (lower_param w)
                  (table_name params) (catalog w))) as Hmem
      by (rewrite Hmatch; by left).
    apply matching_tables_spec in Hmem as (t & Hin & Hbase & <- & Heq).
    by destruct (Hnone t Hin Hbase). }
  destruct (run_job_not_found params w Hmatch) as [st Hrun].
  eexists st, _. split; [exact Hrun|]. unfold job_trace. rewrite Hrun.
  split; [done|].
  destruct (all_tables (catalog w)) as [|row rows] eqn:Hall.
  - left. split; [|done]. by apply all_tables_nil.
  - right. split.
    + intros Hnil. apply all_tables_nil in Hnil. congruence.
    + exists (row_table_name <$> all_tables (catalog w)).
      split; [apply all_tables_names|by rewrite Hall, join_concat].
Qed.

End InMemory.

(** * The health check *)

Lemma health_check_flag cfg :
  health_check cfg !! "vector_service_configured" =
  Some (PBool (truthy (of_env (VECTOR_SERVICE_URL cfg)))).
Proof. reflexivity. Qed.

(** The response is the same for all configurations that agree on whether
    the service URL is set: it carries no configured value. *)
Lemma health_check_hides_values cfg cfg' :
  truthy (of_env (VECTOR_SERVICE_URL cfg)) =
  truthy (of_env (VECTOR_SERVICE_URL cfg')) ->
  health_check cfg = health_check cfg'.
Proof. unfold health_check. by intros ->. Qed.

(** C10.  With only the service URL set, [health_check] reports the service
    as configured, while the configuration is incomplete for the check of
    line 49 and every embedding call fails on it: the flag of line 220
    reads the URL alone. *)
Theorem health_check_reads_only_the_url :
  health_check url_only_config !! "vector_service_configured"
    = Some (PBool true) /\
  config_complete url_only_config = false /\
  forall text (st : @state world),
    call_vector_service url_only_config text st =
    (Raise (Exc ValueError "向量服务内部配置缺失" None), st,
     [EvLog ERROR LogConfigIncomplete]).
Proof.
  split; [reflexivity|]. split; [reflexivity|].
  intros text st. by apply config_incomplete_run.
Qed.

(** * The statements at concrete inputs *)

(** Membership of an event in a computed list of events. *)
Ltac find_event :=
  vm_compute; repeat first [left; reflexivity | right].

(** The scenario of the specification: three rows, the second with an
    empty text the service rejects. *)
Example scenario_docs :
  let tr := job_trace full_config (job "docs") docs_world in
  List.filter is_tally tr = [EvLog INFO (LogDone 2 1)] /\
  List.filter is_update tr =
    [EvExecute 2 (UpdateVector "public.docs" "vec" vector3 (PInt 1));
     EvExecute 2 (UpdateVector "public.docs" "vec" vector3 (PInt 3))].
Proof. split; vm_compute; reflexivity. Qed.

(** The three spellings of the specification resolve the same path. *)
Example scenario_spellings :
  resolved_path (job_trace full_config (job "Users") docs_world)
    = Some "public.users" /\
  resolved_path (job_trace full_config (job "users") docs_world)
    = Some "public.users" /\
  resolved_path (job_trace full_config (job "USERS") docs_world)
    = Some "public.users".
Proof. split; [|split]; vm_compute; reflexivity. Qed.

(** Only base tables of [public] are matched and listed, and the stored
    spelling is the one resolved.  The path is interpolated unquoted into
    the row query, so for a table stored in mixed case the server looks up
    the folded name and the job ends in the database handler. *)
Example scenario_mixed_case :
  resolved_path (job_trace full_config (job "users") mixed_world)
    = Some "public.Users" /\
  In (EvLog ERROR (LogDatabaseFailed "relation 'public.users' does not exist"))
     (job_trace full_config (job "users") mixed_world) /\
  In (EvLog ERROR (LogAllTables "nlp_service" "Users"))
     (job_trace full_config (job "report") mixed_world).
Proof. split; [vm_compute; reflexivity|split; find_event]. Qed.

(** The parameter is folded by the locale of the database: the request
    [ÉCOLE] resolves the stored table [école]. *)
Example scenario_accent :
  resolved_path (job_trace full_config (job "ÉCOLE") ecole_world)
    = Some "public.école" /\
  List.filter is_update (job_trace full_config (job "ÉCOLE") ecole_world) =
    [EvExecute 2 (UpdateVector "public.école" "vec" vector3 (PInt 1))].
Proof. split; vm_compute; reflexivity. Qed.

(** A stored name that does not read as an identifier is resolved, and
    the row query on its unquoted path is a syntax error. *)
Example scenario_hyphen :
  resolved_path (job_trace full_config (job "MY-DOCS") hyphen_world)
    = Some "public.my-docs" /\
  In (EvLog ERROR
        (LogDatabaseFailed "syntax error in the name 'public.my-docs'"))
     (job_trace full_config (job "MY-DOCS") hyphen_world) /\
  List.filter is_update (job_trace full_config (job "MY-DOCS") hyphen_world)
    = [].
Proof. split; [vm_compute; reflexivity|split; [find_event|reflexivity]]. Qed.

Example scenario_missing :
  In (EvLog ERROR (LogAllTables "nlp_service" "docs, users"))
     (job_trace full_config (job "missing") docs_world).
Proof. find_event. Qed.


(** C2 on the three rows of [docs]: the second row fails in the embedding
    call, the third is still processed. *)
Lemma failed_row_witness :
  exists c4 st4 tr,
    process_rows full_config 2 (job "docs") "public.docs" 3 1 docs_rows
                 (0, 0) (State docs_world (Some 1)) = (Ok c4, st4, tr).
Proof.
  edestruct (failed_row_does_not_stop_the_loop full_config 2 (job "docs")
               "public.docs" 3 1
               [TableRow (PInt 1) (PStr "hello")]
               (TableRow (PInt 2) (PStr EmptyString)) []
               (TableRow (PInt 3) (PStr "world")) []
               (0, 0) (State docs_world (Some 1)))
    as [_ (c2 & st2 & tm & c3 & st3 & t2 & c4 & st4 & tp & _ & _ & _ & _ & H)].
  - reflexivity.
  - reflexivity.
  - exists c4, st4. eexists. exact H.
Defined.

(** C3 on the job over [docs]. *)
Lemma connection_closed_witness :
  List.filter is_close (job_trace full_config (job "docs") docs_world)
    = [EvClose 1].
Proof.
  exact (proj1 (connection_closed_exactly_once full_config (job "docs")
                  docs_world 1 docs_world eq_refl)).
Defined.

(** C4 as stated fails on the table [users], which has no rows: the job
    logs that nothing is to be updated, but neither commits nor logs a
    tally. *)
Lemma zero_rows_commit_refuted :
  let tr := job_trace full_config (job "users") docs_world in
  ~ (In (EvLog INFO (LogRowsFound 0)) tr ->
     In (EvLog INFO LogNothingToUpdate) tr /\
     (exists c, In (EvCommit c) tr) /\
     (exists s f, In (EvLog INFO (LogDone s f)) tr)).
Proof.
  intros tr Hclaim.
  destruct Hclaim as (_ & [c Hcommit] & _).
  - find_event.
  - vm_compute in Hcommit.
    repeat (destruct Hcommit as [Hcommit|Hcommit]; [discriminate Hcommit|]).
    contradiction.
Qed.

(** C4, as the code has it, on the table [users]. *)
Lemma zero_rows_witness :
  List.filter is_commit (job_trace full_config (job "users") docs_world) = [].
Proof.
  refine (proj1 (zero_rows_returns_without_commit full_config (job "users")
                   docs_world _)).
  find_event.
Defined.


(** C6 for the request [missing]: the listing names the two base tables,
    in the order of the query. *)
Lemma missing_table_witness :
  exists st,
    run_job full_config (job "missing") docs_world =
    (Ok tt, st,
     resolving (job "missing") ++
     [EvLog ERROR (LogNoMatchingTable "missing");
      EvExecute 2 SelectAllTables; EvFetchall 2;
      EvLog ERROR (LogAllTables "nlp_service" "docs, users");
      EvClose 1; EvLog INFO LogConnectionClosed]).
Proof.
  destruct (missing_table_is_reported full_config (job "missing") docs_world)
    as (st & listing & Hrun & _ & _).
  - intros t [<-|[<-|[]]] _ Hfold; vm_compute in Hfold; discriminate Hfold.
  - exists st.
    assert (listing = LogAllTables "nlp_service" "docs, users") as <-.
    { pose proof Hrun as Hlisting. vm_compute in Hlisting.
      injection Hlisting as _ Hlisting. rewrite Hlisting. reflexivity. }
    exact Hrun.
Defined.

(** C7 with no configuration at all: three rows, three failures. *)
Lemma absent_configuration_witness :
  process_rows no_config 2 (job "docs") "public.docs" 3 1 docs_rows (0, 0)
               (State docs_world (Some 1)) =
  (Ok (0, 3), State docs_world (Some 1),
   concat (imap (fun i row =>
             [EvLog ERROR LogConfigIncomplete;
              EvLog ERROR (LogRowFailed (1 + i) (row_id row)
                                        "向量服务内部配置缺失")])
           docs_rows)).
Proof.
  refine (proj1 (proj2 (absent_configuration_fails_every_row no_config 2
                          (job "docs") "public.docs" 3 _)) docs_rows 1 0 0
                (State docs_world (Some 1))).
  left. reflexivity.
Defined.

(** C8 as stated fails on a body without [data]: the caller does not get
    the [ValueError] of line 72 (the malformed-response error) but the
    [RuntimeError] of line 89, as for any unknown error; and on a body whose
    first [data] element is a number no [ValueError] is raised at all. *)
Lemma malformed_response_is_rewrapped :
  ~ (exists e st' tr,
       call_vector_service full_config (PStr "hello")
         (State (answering (PDict ∅)) None) = (Raise e, st', tr) /\
       exc_cls e = ValueError) /\
  ~ (exists e st' tr,
       call_vector_service full_config (PStr "hello")
         (State (answering (PDict {[ "data" := PList [PInt 1] ]})) None)
         = (Raise e, st', tr) /\
       exc_cls e = ValueError).
Proof.
  split; intros (e & st' & tr & Hrun & Hcls);
    vm_compute in Hrun; injection Hrun as <- _ _; discriminate Hcls.
Qed.

(** C8, as the code has it, on a usable body. *)
Lemma response_shape_witness :
  call_vector_service full_config (PStr "hello")
    (State (answering usable_body) None) =
  (fst (shape_outcome usable_body), State (answering usable_body) None,
   posted full_config "hello" ++ snd (shape_outcome usable_body)).
Proof.
  apply (response_shape_decides_outcome full_config "hello"
           (State (answering usable_body) None)
           (Response (Ok tt) (Ok usable_body)) (answering usable_body)
           usable_body).
  - reflexivity.
  - reflexivity.
  - reflexivity.
  - reflexivity.
Defined.

Example usable_body_returns_vector :
  fst (shape_outcome usable_body) = Ok vector3.
Proof. reflexivity. Qed.

(** What the caller gets for a body without [data], and for one whose
    first [data] element is a number. *)
Example malformed_body_outcomes :
  fst (shape_outcome (PDict ∅)) =
    Raise (Exc RuntimeError "向量生成失败：向量服务返回无有效embedding数据" None) /\
  fst (shape_outcome (PDict {[ "data" := PList [PInt 1] ]})) =
    Raise (Exc RuntimeError
             "向量生成失败：'int' object has no attribute 'get'" None).
Proof. split; reflexivity. Qed.

(** ** The further properties on concrete runs *)

(** X5 on a request that the service refuses with a body of five
    characters, which are fifteen bytes. *)
Lemma transport_failure_witness :
  call_vector_service full_config (PStr "hello")
    (State (failing (Exc RequestException "503 Server Error"
                         (Some "服务不可用"))) None) =
  (Raise (Exc ConnectionError
              "向量服务调用失败：503 Server Error，响应内容：服务不可用" None),
   State (failing (Exc RequestException "503 Server Error"
                       (Some "服务不可用"))) None,
   posted full_config "hello" ++
   [EvLog ERROR
      (LogCallFailed
         "向量服务调用失败：503 Server Error，响应内容：服务不可用")]).
Proof.
  refine (proj1 (transport_failure_is_connection_error full_config
                   "hello"
                   (State (failing (Exc RequestException "503 Server Error"
                                        (Some "服务不可用"))) None)
                   (Exc RequestException "503 Server Error"
                        (Some "服务不可用"))
                   (failing (Exc RequestException "503 Server Error"
                                 (Some "服务不可用")))
                   _ _ _)).
  - reflexivity.
  - left. reflexivity.
  - reflexivity.
Defined.

(** A slice counts characters, not bytes. *)
Example slice_counts_characters :
  slice_to 2 "服务不可用" = "服务" /\
  String.length (slice_to 2 "服务不可用") = 6 /\
  char_length "服务不可用" = 5 /\
  slice_to 200 "{}" = "{}".
Proof. repeat split. Qed.

(** X6 on a request that the client library cannot serialise. *)
Lemma other_failure_witness :
  call_vector_service full_config (PStr "hello")
    (State (failing (Exc OtherException "not JSON serializable" None)) None) =
  (Raise (Exc RuntimeError "向量生成失败：not JSON serializable" None),
   State (failing (Exc OtherException "not JSON serializable" None)) None,
   posted full_config "hello" ++
   [EvLog ERROR (LogGenerationError "not JSON serializable")]).
Proof.
  refine (other_failure_is_runtime_error full_config "hello"
            (State (failing (Exc OtherException "not JSON serializable" None))
                   None)
            (Exc OtherException "not JSON serializable" None)
            (failing (Exc OtherException "not JSON serializable" None))
            _ _ _).
  - reflexivity.
  - left. reflexivity.
  - reflexivity.
Defined.

(** X11 on the request [users] against the table stored as [Users]: the
    row query fails, the job rolls back, closes and returns. *)
Lemma job_swallows_failures_witness :
  fst (fst (run_job full_config (job "users") mixed_world)) = Ok tt.
Proof.
  apply (job_swallows_failures full_config (job "users") mixed_world).
  - intros c w'. reflexivity.
  - intros c w'. reflexivity.
Defined.

(** X12 against a server that refuses the connection. *)
Lemma connection_failure_witness :
  @run_job unit Unreachable.driver full_config (job "docs") tt =
  (Ok tt, State tt None,
   [EvLog INFO (LogConnecting "127.0.0.1" 5432 "nlp_service");
    EvConnect (job "docs");
    EvLog ERROR (LogDatabaseFailed
                   "could not connect to server: Connection refused")]).
Proof.
  apply (@connection_failure_ends_the_job unit Unreachable.driver
           full_config (job "docs") tt Unreachable.refused tt).
  reflexivity.
Defined.

(** The job over [Users] of [mixed_world] is one that rolls back: the
    folded name is not a stored relation. *)
Example scenario_rollback :
  List.filter is_rollback (job_trace full_config (job "users") mixed_world)
    = [EvRollback 1] /\
  List.filter is_row_work (job_trace full_config (job "users") mixed_world)
    = [EvExecute 2 (SelectRows "public.Users" "body")].
Proof. split; reflexivity. Qed.
